(** * Verification of the [fl] Bayesian filtering library

    Three parts of the library are embedded here:
    - [state_filtering/process_model/composed_stationary_process_model.hpp]:
      the process model that stacks a list of component process models;
    - [fl/filter/gaussian/robust_gaussian_filter.hpp]: the robust wrapper
      around a Gaussian filter;
    - the sigma-point quadrature that the wrapper calls, after its
      description in the specification.

    Integers of the C++ code are [Z] with their 32-bit conversions written
    out, Eigen vectors are lists of scalars, and an Eigen range assertion
    that does not hold is an explicit [None]. The first part of the file
    holds the definitions, the second part the facts. *)

From Stdlib Require Import ZArith List Lia Bool.
From Stdlib Require Permutation.
From mathcomp Require boot order algebra.
Import ListNotations.

Open Scope Z_scope.

(* ===================================================================== *)
(** * C++ integer conversions *)
(* ===================================================================== *)

Module CInt.

Definition UINT_MODULUS : Z := 2 ^ 32.
Definition INT_MAX : Z := 2 ^ 31 - 1.
Definition INT_MIN : Z := - 2 ^ 31.

(** Conversion of an integer value to [unsigned]: reduction modulo [2^32]. *)
Definition to_unsigned (x : Z) : Z := x mod UINT_MODULUS.

(** Conversion of an [unsigned] value to [int]: the two's complement
    reading of the same 32 bits (what C++20 prescribes and earlier
    compilers do). *)
Definition to_int (x : Z) : Z := (x + 2 ^ 31) mod UINT_MODULUS - 2 ^ 31.

End CInt.

(* ===================================================================== *)
(** * Eigen dynamic column vectors *)
(* ===================================================================== *)

Module Eigen.

Section Vectors.

Context {Scalar : Type}.

Definition Vector : Type := list Scalar.

Definition rows (v : Vector) : Z := Z.of_nat (length v).

(** [Vector v(n)]: a vector of [n] coefficients whose content is left
    unspecified ([fill]); a negative size is refused. *)
Definition Vector_ctor (fill : Scalar) (n : Z) : option Vector :=
  if 0 <=? n then Some (repeat fill (Z.to_nat n)) else None.

(** [v.middleRows(startRow, n)] read: the block of [n] rows from
    [startRow]; Eigen asserts
    [startRow >= 0 && n >= 0 && startRow + n <= rows()]. *)
Definition middleRows (v : Vector) (startRow n : Z) : option Vector :=
  if (0 <=? startRow) && (0 <=? n) && (startRow + n <=? rows v)
  then Some (firstn (Z.to_nat n) (skipn (Z.to_nat startRow) v))
  else None.

(** [v.middleRows(startRow, n) = src]: the same range assertion, and a block
    cannot be resized, so [src] must have exactly [n] rows. *)
Definition assign_middleRows (v : Vector) (startRow n : Z) (src : Vector)
  : option Vector :=
  if (0 <=? startRow) && (0 <=? n) && (startRow + n <=? rows v)
     && (rows src =? n)
  then Some (firstn (Z.to_nat startRow) v ++ src
             ++ skipn (Z.to_nat (startRow + n)) v)
  else None.

End Vectors.

End Eigen.

(* ===================================================================== *)
(** * Option as the error monad of the Eigen assertions *)
(* ===================================================================== *)

Definition obind {A B : Type} (o : option A) (k : A -> option B) : option B :=
  match o with
  | Some a => k a
  | None => None
  end.

Declare Scope asserting_scope.
Delimit Scope asserting_scope with asserting.
Notation "x <- e ;; k" := (obind e (fun x => k))
  (at level 100, e at next level, right associativity) : asserting_scope.

(* ===================================================================== *)
(** * ComposedStationaryProcessModel *)
(* ===================================================================== *)

Module Composed.

Import CInt Eigen.

Section Model.

Context {Scalar : Type}.

Local Abbreviation Vec := (@Vector Scalar).

(** The interface [StationaryProcessModel<>] as the composed model uses it:
    three [int]-valued sizes, the [const] map from noise to a variable and
    the mutator [conditionals]. *)
Class StationaryProcessModel (M : Type) : Type := {
  variableSize : M -> Z;
  randomsSize : M -> Z;
  controlSize : M -> Z;
  mapFromGaussian : M -> Vec -> option Vec;
  conditionals : M -> Scalar -> Vec -> Vec -> option M
}.

Section WithComponents.

Context {M : Type} `{StationaryProcessModel M}.

(** The components are held through [boost::shared_ptr]: a pointer is a
    name in a store of component objects, and two entries of the list may
    name the same object. *)
Definition ptr : Type := nat.
Definition Store : Type := ptr -> M.

Definition store_set (h : Store) (p : ptr) (o : M) : Store :=
  fun q => if Nat.eqb q p then o else h q.

Definition ProcessModelList : Type := list ptr.

Record ComposedStationaryProcessModel : Type := {
  process_models_ : ProcessModelList
}.

(** The three counting functions: an [unsigned] accumulator, to which each
    [int] size is added after its conversion to [unsigned]. *)
Definition total_count_state (h : Store) (process_models : ProcessModelList) : Z :=
  fold_left
    (fun total_count_state p =>
       to_unsigned (total_count_state + to_unsigned (variableSize (h p))))
    process_models 0.

Definition total_count_control (h : Store) (process_models : ProcessModelList) : Z :=
  fold_left
    (fun total_count_control p =>
       to_unsigned (total_count_control + to_unsigned (controlSize (h p))))
    process_models 0.

Definition total_count_randoms (h : Store) (process_models : ProcessModelList) : Z :=
  fold_left
    (fun total_count_randoms p =>
       to_unsigned (total_count_randoms + to_unsigned (randomsSize (h p))))
    process_models 0.

(** [virtual int variableSize() const] and its siblings return the
    [unsigned] count as an [int]. *)
Definition composed_variableSize (h : Store) (m : ComposedStationaryProcessModel) : Z :=
  to_int (total_count_state h (process_models_ m)).

Definition composed_randomsSize (h : Store) (m : ComposedStationaryProcessModel) : Z :=
  to_int (total_count_randoms h (process_models_ m)).

Definition composed_controlSize (h : Store) (m : ComposedStationaryProcessModel) : Z :=
  to_int (total_count_control h (process_models_ m)).

Local Open Scope asserting_scope.

(** The loop of [mapFromGaussian]. The running indices are [size_t]; on
    every path that passes the range assertion of [middleRows] they stay
    between 0 and the number of rows of the vector they index, so no
    wrap-around of [size_t] is ever observed. *)
Fixpoint mapFromGaussian_loop (h : Store) (process_models : ProcessModelList)
    (randoms variables : Vec) (variable_index random_index : Z) : option Vec :=
  match process_models with
  | [] => Some variables
  | p :: rest =>
      r <- middleRows randoms random_index (randomsSize (h p)) ;;
      v <- mapFromGaussian (h p) r ;;
      variables' <- assign_middleRows variables variable_index
                                      (variableSize (h p)) v ;;
      mapFromGaussian_loop h rest randoms variables'
        (variable_index + variableSize (h p))
        (random_index + randomsSize (h p))
  end.

Definition composed_mapFromGaussian (fill : Scalar) (h : Store)
    (m : ComposedStationaryProcessModel) (randoms : Vec) : option Vec :=
  variables <- Vector_ctor fill (composed_variableSize h m) ;;
  mapFromGaussian_loop h (process_models_ m) randoms variables 0 0.

(** The loop of [conditionals]: each component is conditioned, in place,
    on its slices of the state and of the control; the sizes that advance
    the indices are read after the call. *)
Fixpoint conditionals_loop (h : Store) (process_models : ProcessModelList)
    (delta_time : Scalar) (state control : Vec)
    (state_index control_index : Z) : option Store :=
  match process_models with
  | [] => Some h
  | p :: rest =>
      s <- middleRows state state_index (variableSize (h p)) ;;
      c <- middleRows control control_index (controlSize (h p)) ;;
      o <- conditionals (h p) delta_time s c ;;
      let h' := store_set h p o in
      conditionals_loop h' rest delta_time state control
        (state_index + variableSize (h' p))
        (control_index + controlSize (h' p))
  end.

Definition composed_conditionals (h : Store)
    (m : ComposedStationaryProcessModel) (delta_time : Scalar)
    (state control : Vec) : option Store :=
  conditionals_loop h (process_models_ m) delta_time state control 0 0.

(** The composed model is itself a [StationaryProcessModel<>]: the object
    is the list of pointers together with the store it reads. *)
#[export] Instance Composed_model (fill : Scalar)
  : StationaryProcessModel (Store * ComposedStationaryProcessModel) := {|
  variableSize := fun hm => composed_variableSize (fst hm) (snd hm);
  randomsSize := fun hm => composed_randomsSize (fst hm) (snd hm);
  controlSize := fun hm => composed_controlSize (fst hm) (snd hm);
  mapFromGaussian := fun hm randoms =>
    composed_mapFromGaussian fill (fst hm) (snd hm) randoms;
  conditionals := fun hm delta_time state control =>
    h' <- composed_conditionals (fst hm) (snd hm) delta_time state control ;;
    Some (h', snd hm)
|}.

(** ** The notions the properties are stated with *)

(** The sum of a declared size over the components of the list. *)
Definition sum_sizes (size : M -> Z) (h : Store) (process_models : ProcessModelList) : Z :=
  fold_right (fun p acc => size (h p) + acc) 0 process_models.

(** Consecutive, disjoint slices of a vector, of the given lengths. *)
Fixpoint slices (sizes : list Z) (v : Vec) : list Vec :=
  match sizes with
  | [] => []
  | n :: rest =>
      firstn (Z.to_nat n) v :: slices rest (skipn (Z.to_nat n) v)
  end.

(** The slice of the noise vector that belongs to each component. *)
Definition component_slices (h : Store) (process_models : ProcessModelList)
    (randoms : Vec) : list Vec :=
  slices (map (fun p => randomsSize (h p)) process_models) randoms.

(** Each component applied to its own slice, in the order of the list. *)
Fixpoint component_blocks (h : Store) (process_models : ProcessModelList)
    (parts : list Vec) : option (list Vec) :=
  match process_models, parts with
  | [], _ => Some []
  | p :: rest, part :: parts' =>
      v <- mapFromGaussian (h p) part ;;
      vs <- component_blocks h rest parts' ;;
      Some (v :: vs)
  | _ :: _, [] => None
  end.

(** The vertical concatenation of the component outputs. *)
Definition stacked_mapFromGaussian (h : Store)
    (m : ComposedStationaryProcessModel) (randoms : Vec) : option Vec :=
  blocks <- component_blocks h (process_models_ m)
              (component_slices h (process_models_ m) randoms) ;;
  Some (concat blocks).

(** Components that keep the contract of [StationaryProcessModel<>] as far
    as [mapFromGaussian] goes: the sizes they declare are sizes, and a noise
    vector of the declared length is mapped to a variable of the declared
    length. *)
Definition conforming (o : M) : Prop :=
  0 <= variableSize o /\ 0 <= randomsSize o /\
  forall r : Vec, rows r = randomsSize o ->
    exists v, mapFromGaussian o r = Some v /\ rows v = variableSize o.

(** A total size is representable as [int], as an Eigen vector of that many
    rows handed over through the [int]-valued interface requires. *)
Definition representable (size : M -> Z) (h : Store)
    (m : ComposedStationaryProcessModel) : Prop :=
  sum_sizes size h (process_models_ m) <= INT_MAX.

End WithComponents.

End Model.

End Composed.

(* ===================================================================== *)
(** * A concrete component model, for running the definitions *)
(* ===================================================================== *)

Module ComposedDemo.

Import Eigen Composed.

(** A gain component over integer scalars: row by row,
    [variable = offset + gain * noise], cut or zero-filled to the declared
    number of rows; conditioning sets the offset from the state and the
    control it is given. *)
Record GainModel : Type := {
  dim_variable : Z;
  dim_randoms : Z;
  dim_control : Z;
  gain : Z;
  offset : Z
}.

Definition resize (n : Z) (v : list Z) : list Z :=
  firstn (Z.to_nat n) (v ++ repeat 0 (Z.to_nat n)).

Definition total (v : list Z) : Z := fold_right Z.add 0 v.

#[export] Instance GainModel_model : StationaryProcessModel (Scalar := Z) GainModel := {|
  variableSize := dim_variable;
  randomsSize := dim_randoms;
  controlSize := dim_control;
  mapFromGaussian := fun g r =>
    Some (resize (dim_variable g) (map (fun w => offset g + gain g * w) r));
  conditionals := fun g delta_time state control =>
    Some {| dim_variable := dim_variable g;
            dim_randoms := dim_randoms g;
            dim_control := dim_control g;
            gain := gain g;
            offset := delta_time * (total state + total control) |}
|}.

Definition gain_block (n k : Z) : GainModel :=
  {| dim_variable := n; dim_randoms := n; dim_control := 1;
     gain := k; offset := 0 |}.

(** Two components of two and one rows, behind the pointers 0 and 1. *)
Definition small_store : @Store GainModel :=
  fun p => match p with
           | O => gain_block 2 10
           | _ => gain_block 1 100
           end.

Definition small_model : ComposedStationaryProcessModel :=
  {| process_models_ := [0%nat; 1%nat] |}.

(** Three components whose declared sizes are valid [int] values and add up
    to [2^32 + 1]. *)
Definition wide (n : Z) : GainModel :=
  {| dim_variable := n; dim_randoms := n; dim_control := n;
     gain := 1; offset := 0 |}.

Definition wide_store : @Store GainModel :=
  fun p => match p with
           | O => wide 2147483647
           | S O => wide 2147483647
           | _ => wide 3
           end.

Definition wide_model : ComposedStationaryProcessModel :=
  {| process_models_ := [0%nat; 1%nat; 2%nat] |}.

(** Three components without variables whose declared noise sizes are valid
    [int] values and add up to [2^32]. *)
Definition noise_only (n : Z) : GainModel :=
  {| dim_variable := 0; dim_randoms := n; dim_control := 0;
     gain := 1; offset := 0 |}.

Definition noisy_store : @Store GainModel :=
  fun p => match p with
           | O => noise_only 2147483647
           | S O => noise_only 2147483647
           | _ => noise_only 2
           end.

Definition noisy_model : ComposedStationaryProcessModel :=
  {| process_models_ := [0%nat; 1%nat; 2%nat] |}.

(** The same component listed twice: both entries name the object behind
    pointer 0. *)
Definition aliased_model : ComposedStationaryProcessModel :=
  {| process_models_ := [0%nat; 0%nat] |}.

(** Composed models as components of a composed model. *)
Definition nested_store
  : @Store (@Store GainModel * ComposedStationaryProcessModel) :=
  fun _ => (small_store, small_model).

Definition nested_model : ComposedStationaryProcessModel :=
  {| process_models_ := [0%nat; 1%nat] |}.

End ComposedDemo.

(* ===================================================================== *)
(** * RobustGaussianFilter *)
(* ===================================================================== *)

Module Robust.

(** [Traits<RobustGaussianFilter<...>>]: the types the filter works on.
    The wrapper does no arithmetic on them; [Matrix] is the type of second
    moments, [FeatureObsrv] the observation type of the feature model. *)
Class Traits : Type := {
  State : Type;
  Input : Type;
  Obsrv : Type;
  Noise : Type;
  FeatureObsrv : Type;
  Matrix : Type
}.

Record Gaussian {T : Traits} (Variate : Type) : Type := {
  mean : Variate;
  covariance : Matrix
}.

Arguments mean {_ _} _.
Arguments covariance {_ _} _.

(** The observation function interface, as [update] uses the raw model. *)
Class ObservationFunctionInterface {T : Traits} (ObservationFunction : Type) : Type := {
  observation : ObservationFunction -> State -> Noise -> Obsrv;
  obsrv_dimension : ObservationFunction -> Z;
  noise_dimension : ObservationFunction -> Z
}.

Section Filter.

Context {T : Traits}.
Context {StateTransitionFunction ObservationFunction Quadrature : Type}.
Context {OF : ObservationFunctionInterface ObservationFunction}.

Definition Belief : Type := Gaussian State.

(** Modelled from the spec: the feature observation model
    ([fl/model/observation/robust_feature_obsrv_model.hpp] is not among the
    sources). It wraps the raw observation model and holds the current
    body-distribution estimate and the reference state; [parameters] is the
    calibration hook that refreshes both, [feature_obsrv] the transform
    hook. *)
Record FeatureObsrvModel : Type := {
  embedded_obsrv_model : ObservationFunction;
  body_gaussian_ : option (Gaussian Obsrv);
  mean_state_ : option State
}.

(** [FeatureObsrvModel(obsrv_model)]: nothing calibrated yet. *)
Definition FeatureObsrvModel_ctor (obsrv_model : ObservationFunction)
  : FeatureObsrvModel :=
  {| embedded_obsrv_model := obsrv_model;
     body_gaussian_ := None;
     mean_state_ := None |}.

Definition parameters (fm : FeatureObsrvModel) (body_gaussian : Gaussian Obsrv)
    (mean_state : State) : FeatureObsrvModel :=
  {| embedded_obsrv_model := embedded_obsrv_model fm;
     body_gaussian_ := Some body_gaussian;
     mean_state_ := Some mean_state |}.

(** Modelled from the spec: the wrapped Gaussian filter engine
    ([fl/filter/gaussian/gaussian_filter_nonlinear_generic.hpp] is not among
    the sources). It holds the process model, the observation model and the
    quadrature it is built from. *)
Record BaseGaussianFilter : Type := {
  process_model_ : StateTransitionFunction;
  obsrv_model_ : FeatureObsrvModel;
  quadrature_ : Quadrature
}.

Definition BaseGaussianFilter_ctor (process_model : StateTransitionFunction)
    (obsrv_model : FeatureObsrvModel) (quadrature : Quadrature)
  : BaseGaussianFilter :=
  {| process_model_ := process_model;
     obsrv_model_ := obsrv_model;
     quadrature_ := quadrature |}.

(** The numerics of the absent collaborators, as functions of what they are
    given: the [Gaussian(dimension)] constructors, the transform of the
    feature model, the moment integration of the quadrature and the
    prediction and update policies of the engine. *)
Class Collaborators : Type := {
  Gaussian_Obsrv_ctor : Z -> Gaussian Obsrv;
  Gaussian_Noise_ctor : Z -> Gaussian Noise;
  feature_transform : FeatureObsrvModel -> Obsrv -> FeatureObsrv;
  quadrature_integrate_moments :
    Quadrature -> (State -> Noise -> Obsrv) -> Belief -> Gaussian Noise ->
    Gaussian Obsrv -> Gaussian Obsrv;
  prediction_policy :
    StateTransitionFunction -> Quadrature -> Belief -> Input -> Belief;
  update_policy :
    FeatureObsrvModel -> Quadrature -> Belief -> FeatureObsrv -> Belief
}.

Context {C : Collaborators}.

(** The engine's own [predict] and [update]: its policies applied to the
    models it holds. *)
Definition BaseGaussianFilter_predict (gf : BaseGaussianFilter)
    (prior_belief : Belief) (input : Input) : Belief :=
  prediction_policy (process_model_ gf) (quadrature_ gf) prior_belief input.

Definition BaseGaussianFilter_update (gf : BaseGaussianFilter)
    (predicted_belief : Belief) (feature_obsrv : FeatureObsrv) : Belief :=
  update_policy (obsrv_model_ gf) (quadrature_ gf) predicted_belief
    feature_obsrv.

(** ** The filter object and the calls it makes *)

Record RobustGaussianFilter : Type := {
  gaussian_filter_ : BaseGaussianFilter
}.

(** A call on a collaborator, with the arguments it receives. *)
Inductive Call : Type :=
| call_predict (prior_belief : Belief) (input : Input)
| call_integrate_moments (h : State -> Noise -> Obsrv)
    (predicted_belief : Belief) (noise_distr : Gaussian Noise)
    (body_distr : Gaussian Obsrv)
| call_parameters (body_distr : Gaussian Obsrv) (mean_state : State)
| call_feature_obsrv (obsrv : Obsrv)
| call_update (predicted_belief : Belief) (feature_obsrv : FeatureObsrv).

(** The state a member function runs in: the object, and the calls made so
    far, oldest first. *)
Record World : Type := {
  this : RobustGaussianFilter;
  calls : list Call
}.

Definition Method (A : Type) : Type := World -> A * World.

Definition ret {A : Type} (a : A) : Method A := fun w => (a, w).

Definition bind {A B : Type} (c : Method A) (k : A -> Method B) : Method B :=
  fun w => let (a, w') := c w in k a w'.

Definition get_this : Method RobustGaussianFilter := fun w => (this w, w).

Definition called (c : Call) : Method unit :=
  fun w => (tt, {| this := this w; calls := calls w ++ [c] |}).

Definition set_obsrv_model (fm : FeatureObsrvModel) : Method unit :=
  fun w =>
    (tt, {| this := {| gaussian_filter_ :=
                         {| process_model_ := process_model_ (gaussian_filter_ (this w));
                            obsrv_model_ := fm;
                            quadrature_ := quadrature_ (gaussian_filter_ (this w)) |} |};
            calls := calls w |}).

Declare Scope method_scope.
Delimit Scope method_scope with method.
Notation "x <- c ;; k" := (bind c (fun x => k))
  (at level 100, c at next level, right associativity) : method_scope.
Notation "c ;; k" := (bind c (fun _ => k))
  (at level 100, right associativity) : method_scope.

Local Open Scope method_scope.

(** ** The member functions of the wrapped engine that the wrapper calls *)

Definition gaussian_filter_predict (prior_belief : Belief) (input : Input)
  : Method Belief :=
  t <- get_this ;;
  called (call_predict prior_belief input) ;;
  ret (BaseGaussianFilter_predict (gaussian_filter_ t) prior_belief input).

Definition gaussian_filter_update (predicted_belief : Belief)
    (feature_obsrv : FeatureObsrv) : Method Belief :=
  t <- get_this ;;
  called (call_update predicted_belief feature_obsrv) ;;
  ret (BaseGaussianFilter_update (gaussian_filter_ t) predicted_belief
         feature_obsrv).

Definition integrate_moments (h : State -> Noise -> Obsrv)
    (predicted_belief : Belief) (noise_distr : Gaussian Noise)
    (body_distr : Gaussian Obsrv) : Method (Gaussian Obsrv) :=
  t <- get_this ;;
  called (call_integrate_moments h predicted_belief noise_distr body_distr) ;;
  ret (quadrature_integrate_moments (quadrature_ (gaussian_filter_ t)) h
         predicted_belief noise_distr body_distr).

Definition obsrv_model_parameters (body_distr : Gaussian Obsrv)
    (mean_state : State) : Method unit :=
  t <- get_this ;;
  called (call_parameters body_distr mean_state) ;;
  set_obsrv_model
    (parameters (obsrv_model_ (gaussian_filter_ t)) body_distr mean_state).

Definition obsrv_model_feature_obsrv (obsrv : Obsrv) : Method FeatureObsrv :=
  t <- get_this ;;
  called (call_feature_obsrv obsrv) ;;
  ret (feature_transform (obsrv_model_ (gaussian_filter_ t)) obsrv).

(** ** RobustGaussianFilter *)

(** The constructor: the wrapped engine is built on the process model, on
    [FeatureObsrvModel(obsrv_model)] and on the remaining arguments, from
    which it takes its quadrature. *)
Definition RobustGaussianFilter_ctor (process_model : StateTransitionFunction)
    (obsrv_model : ObservationFunction) (args : Quadrature)
  : RobustGaussianFilter :=
  {| gaussian_filter_ :=
       BaseGaussianFilter_ctor process_model
         (FeatureObsrvModel_ctor obsrv_model) args |}.

(** Accessors. *)
Definition process_model (t : RobustGaussianFilter) : StateTransitionFunction :=
  process_model_ (gaussian_filter_ t).

Definition obsrv_model (t : RobustGaussianFilter) : ObservationFunction :=
  embedded_obsrv_model (obsrv_model_ (gaussian_filter_ t)).

Definition robust_feature_obsrv_model (t : RobustGaussianFilter)
  : FeatureObsrvModel :=
  obsrv_model_ (gaussian_filter_ t).

Definition predict (prior_belief : Belief) (input : Input) : Method Belief :=
  gaussian_filter_predict prior_belief input.

(** [update]. The closure [h] captures the object and reads its raw model
    when it is applied, which is inside [integrate_moments], before
    anything of the object has changed. *)
Definition update (predicted_belief : Belief) (obsrv : Obsrv) : Method Belief :=
  t <- get_this ;;
  let body_distr := Gaussian_Obsrv_ctor (obsrv_dimension (obsrv_model t)) in
  let noise_distr := Gaussian_Noise_ctor (noise_dimension (obsrv_model t)) in
  let h := fun (x : State) (w : Noise) => observation (obsrv_model t) x w in
  body_distr <- integrate_moments h predicted_belief noise_distr body_distr ;;
  obsrv_model_parameters body_distr (mean predicted_belief) ;;
  y <- obsrv_model_feature_obsrv obsrv ;;
  gaussian_filter_update predicted_belief y.

(** ** Using the filter *)

(** A fresh world around an object: no call made yet. *)
Definition enter (t : RobustGaussianFilter) : World :=
  {| this := t; calls := [] |}.

(** What a caller may do with the filter, one step at a time. *)
Inductive Step : Type :=
| do_predict (prior_belief : Belief) (input : Input)
| do_update (predicted_belief : Belief) (obsrv : Obsrv).

Definition step (s : Step) : Method Belief :=
  match s with
  | do_predict prior_belief input => predict prior_belief input
  | do_update predicted_belief obsrv => update predicted_belief obsrv
  end.

(** The object after a sequence of steps, whatever they returned. *)
Fixpoint after (steps : list Step) (t : RobustGaussianFilter)
  : RobustGaussianFilter :=
  match steps with
  | [] => t
  | s :: rest => after rest (this (snd (step s (enter t))))
  end.

(** ** The notions the properties are stated with *)

(** The body distribution: the moments of the raw observation function
    under the predicted belief and the noise distribution. *)
Definition body_distribution (t : RobustGaussianFilter)
    (predicted_belief : Belief) : Gaussian Obsrv :=
  quadrature_integrate_moments (quadrature_ (gaussian_filter_ t))
    (fun x w => observation (obsrv_model t) x w)
    predicted_belief
    (Gaussian_Noise_ctor (noise_dimension (obsrv_model t)))
    (Gaussian_Obsrv_ctor (obsrv_dimension (obsrv_model t))).

(** The feature model once calibrated for a predicted belief. *)
Definition calibrated_model (t : RobustGaussianFilter)
    (predicted_belief : Belief) : FeatureObsrvModel :=
  parameters (robust_feature_obsrv_model t)
    (body_distribution t predicted_belief) (mean predicted_belief).

(** Two objects with the same model parameters: they may differ in the
    calibration an earlier [update] left in the feature model. *)
Definition same_parameters (t t' : RobustGaussianFilter) : Prop :=
  process_model t = process_model t' /\
  obsrv_model t = obsrv_model t' /\
  quadrature_ (gaussian_filter_ t) = quadrature_ (gaussian_filter_ t').

Definition is_parameters (c : Call) : Prop :=
  match c with call_parameters _ _ => True | _ => False end.

Definition is_feature_obsrv (c : Call) : Prop :=
  match c with call_feature_obsrv _ => True | _ => False end.

(** The reference state of a calibration call is [x]. *)
Definition calibrates_on (x : State) (c : Call) : Prop :=
  match c with call_parameters _ mean_state => mean_state = x | _ => True end.

(** In the trace [l], every call of kind [Q] comes after a call of kind
    [P]. *)
Definition always_after (P Q : Call -> Prop) (l : list Call) : Prop :=
  forall l1 d l2, l = l1 ++ d :: l2 -> Q d -> exists c, In c l1 /\ P c.

End Filter.

End Robust.

(* ===================================================================== *)
(** * A scalar filter, for running the wrapper *)
(* ===================================================================== *)

Module RobustDemo.

Import Robust.

(** Everything is an integer: states, inputs, observations, noise,
    features and second moments. *)
#[export] Instance scalar_traits : Traits := {|
  State := Z; Input := Z; Obsrv := Z; Noise := Z; FeatureObsrv := Z;
  Matrix := Z
|}.

(** The raw observation model [y = sensor * x + w]. *)
Record LinearSensor : Type := { sensor : Z }.

#[export] Instance LinearSensor_obsrv : ObservationFunctionInterface LinearSensor := {|
  observation := fun om x w => sensor om * x + w;
  obsrv_dimension := fun _ => 1;
  noise_dimension := fun _ => 1
|}.

(** The process model [x' = dynamics * x + u]. *)
Record LinearDynamics : Type := { dynamics : Z }.

Record OnePoint : Type := { spread : Z }.

(** One-point numerics: the moments are read at the mean; the feature is
    the deviation of the observation from the body mean. *)
#[export] Instance scalar_collaborators
  : @Collaborators scalar_traits LinearDynamics LinearSensor OnePoint := {|
  Gaussian_Obsrv_ctor := fun n => {| mean := 0; covariance := n |};
  Gaussian_Noise_ctor := fun n => {| mean := 0; covariance := n |};
  feature_transform := fun fm y =>
    match body_gaussian_ fm with
    | Some body => y - mean body
    | None => y
    end;
  quadrature_integrate_moments := fun q h belief noise_distr body_distr =>
    {| mean := h (mean belief) (mean noise_distr);
       covariance := spread q * covariance belief + covariance noise_distr |};
  prediction_policy := fun pm q belief u =>
    {| mean := dynamics pm * mean belief + u;
       covariance := dynamics pm * dynamics pm * covariance belief + 1 |};
  update_policy := fun fm q belief y =>
    {| mean := mean belief + y; covariance := covariance belief |}
|}.

Definition scalar_filter : RobustGaussianFilter :=
  RobustGaussianFilter_ctor {| dynamics := 2 |} {| sensor := 3 |}
    {| spread := 1 |}.

Definition belief_5 : Belief := {| mean := 5; covariance := 1 |}.
Definition belief_8 : Belief := {| mean := 8; covariance := 4 |}.

(** The same filter after an update on another belief: its feature model
    carries the calibration of that update. *)
Definition used_filter : RobustGaussianFilter :=
  after [do_update belief_8 99] scalar_filter.

End RobustDemo.

(* ===================================================================== *)
(** * Sigma-point quadrature *)
(* ===================================================================== *)

Module SigmaPoint.

Local Set Warnings "-notation-overridden,-ambiguous-paths".
Import mathcomp.boot.boot mathcomp.order.order mathcomp.algebra.algebra.
Local Set Warnings "notation-overridden,ambiguous-paths".
Import GRing.Theory Num.Theory.

Local Open Scope ring_scope.

Section Quadrature.

(** The scalars: exact arithmetic in an ordered field stands for the
    floating-point numbers of the library. *)
Variable F : numFieldType.

Record Gaussian (n : nat) : Type := {
  mean : 'cV[F]_n;
  covariance : 'M[F]_n
}.

(** An entry of a sigma-point set: the point, its weight in the mean and
    its weight in the covariance. *)
Record SigmaPointEntry (n : nat) : Type := {
  point : 'cV[F]_n;
  weight_mean : F;
  weight_cov : F
}.

Arguments mean {n} _.
Arguments covariance {n} _.
Arguments point {n} _.
Arguments weight_mean {n} _.
Arguments weight_cov {n} _.

(** The spread constant, the extra weight of the central point in the
    covariance, and the matrix square root that the linear algebra library
    supplies. *)
Variables (kappa beta : F).
Variable matrix_sqrt : forall n : nat, 'M[F]_n -> 'M[F]_n.

Definition scaling (n : nat) : F := n%:R + kappa.
Definition central_weight (n : nat) : F := kappa / scaling n.
Definition symmetric_weight (n : nat) : F := (scaling n *+ 2)^-1.

(** Modelled from the spec: the sigma-point set of a Gaussian (the
    quadrature of [fl/filter/gaussian/quadrature] is not among the
    sources). The standard unscented construction: [2n+1] points, the mean
    and the mean plus and minus each column of the square root of the
    scaled covariance; a central weight and symmetric weights given by the
    spread constant. *)
Definition sigma_points {n : nat} (distr : Gaussian n) : seq (SigmaPointEntry n) :=
  let offsets := matrix_sqrt n (scaling n *: covariance distr) in
  {| point := mean distr;
     weight_mean := central_weight n;
     weight_cov := central_weight n + beta |}
  :: [seq {| point := mean distr + col j offsets;
             weight_mean := symmetric_weight n;
             weight_cov := symmetric_weight n |} | j <- enum 'I_n]
  ++ [seq {| point := mean distr - col j offsets;
             weight_mean := symmetric_weight n;
             weight_cov := symmetric_weight n |} | j <- enum 'I_n].

(** Modelled from the spec: the moments of a function through a point set,
    the weighted mean and the weighted outer-product covariance. *)
Definition weighted_mean {n m : nat} (f : 'cV[F]_n -> 'cV[F]_m)
    (points : seq (SigmaPointEntry n)) : 'cV[F]_m :=
  \sum_(p <- points) weight_mean p *: f (point p).

Definition weighted_covariance {n m : nat} (f : 'cV[F]_n -> 'cV[F]_m)
    (points : seq (SigmaPointEntry n)) : 'M[F]_m :=
  \sum_(p <- points)
    weight_cov p *: ((f (point p) - weighted_mean f points)
                     *m (f (point p) - weighted_mean f points)^T).

(** Modelled from the spec: [integrate_moments], the first two moments of
    [f] under a Gaussian. *)
Definition integrate_moments {n m : nat} (f : 'cV[F]_n -> 'cV[F]_m)
    (distr : Gaussian n) : Gaussian m :=
  {| mean := weighted_mean f (sigma_points distr);
     covariance := weighted_covariance f (sigma_points distr) |}.

Definition affine {n m : nat} (A : 'M[F]_(m, n)) (b : 'cV[F]_m)
  : 'cV[F]_n -> 'cV[F]_m :=
  fun x => A *m x + b.

End Quadrature.

Arguments Build_Gaussian {F n} _ _.
Arguments mean {F n} _.
Arguments covariance {F n} _.
Arguments point {F n} _.
Arguments weight_mean {F n} _.
Arguments weight_cov {F n} _.
Arguments scaling {F} kappa n.
Arguments central_weight {F} kappa n.
Arguments symmetric_weight {F} kappa n.
Arguments sigma_points {F} kappa beta matrix_sqrt {n} distr.
Arguments weighted_mean {F n m} f points.
Arguments weighted_covariance {F n m} f points.
Arguments integrate_moments {F} kappa beta matrix_sqrt {n m} f distr.
Arguments affine {F n m} A b _.

(** A standard Gaussian in two dimensions over the rationals. With the
    spread constant 2 the scaled covariance is [4 I]; [twice_identity] is
    its square root, which is all this example asks of the square-root
    primitive. *)
Definition standard_gaussian_2 : Gaussian rat 2 :=
  {| mean := 0; covariance := 1%:M |}.

Definition twice_identity (n : nat) (_ : 'M[rat]_n) : 'M[rat]_n := 2%:M.

End SigmaPoint.

(* ===================================================================== *)
(** * Further notions on the composed process model *)
(* ===================================================================== *)

Module ComposedNotions.

Import CInt Eigen Composed.

Section Notions.

Context {Scalar : Type} {M : Type} {SPM : StationaryProcessModel (Scalar := Scalar) M}.

Local Abbreviation Vec := (@Vector Scalar).

Local Open Scope asserting_scope.




(** Conditioning a component leaves the sizes it declares as they are. *)
Definition keeps_sizes : Prop :=
  forall (o o' : M) (delta_time : Scalar) (state control : Vec),
    conditionals o delta_time state control = Some o' ->
    variableSize o' = variableSize o /\
    randomsSize o' = randomsSize o /\
    controlSize o' = controlSize o.

(** Two stores hold objects of the same declared sizes. *)
Definition same_sizes (h h' : @Store M) : Prop :=
  forall q : ptr,
    variableSize (h' q) = variableSize (h q) /\
    randomsSize (h' q) = randomsSize (h q) /\
    controlSize (h' q) = controlSize (h q).

End Notions.

End ComposedNotions.

(** The two-component model of [ComposedDemo] once conditioned on a state
    of three rows and a control of two rows, with the time step 2. *)
Module ConditionedDemo.

Import Composed ComposedDemo.

Definition conditioned_small_store : @Store GainModel :=
  store_set
    (store_set small_store 0%nat
       {| dim_variable := 2; dim_randoms := 2; dim_control := 1;
          gain := 10; offset := 16 |})
    1%nat
    {| dim_variable := 1; dim_randoms := 1; dim_control := 1;
       gain := 100; offset := 18 |}.

End ConditionedDemo.

(* ===================================================================== *)
(** * Further notions on the robust filter *)
(* ===================================================================== *)

Module RobustNotions.

Import Robust.

Section Notions.

Context {T : Traits}.

Definition is_predict_step (s : @Step T) : Prop :=
  match s with do_predict _ _ => True | do_update _ _ => False end.

End Notions.

End RobustNotions.

(* ##################################################################### *)
(** * Facts *)
(* ##################################################################### *)

(* ===================================================================== *)
(** * Facts on the integer conversions and on vectors *)
(* ===================================================================== *)

Module CIntFacts.

Import CInt.

Lemma to_unsigned_idem (x : Z) : to_unsigned (to_unsigned x) = to_unsigned x.
Proof. unfold to_unsigned, UINT_MODULUS. apply Z.mod_mod. lia. Qed.

Lemma to_unsigned_add (x y : Z) :
  to_unsigned (x + to_unsigned y) = to_unsigned (x + y).
Proof. unfold to_unsigned, UINT_MODULUS. apply Zplus_mod_idemp_r. Qed.

Lemma to_unsigned_add_l (x y : Z) :
  to_unsigned (to_unsigned x + y) = to_unsigned (x + y).
Proof. unfold to_unsigned, UINT_MODULUS. apply Zplus_mod_idemp_l. Qed.

Lemma to_int_to_unsigned (x : Z) : to_int (to_unsigned x) = to_int x.
Proof.
  unfold to_int, to_unsigned, UINT_MODULUS.
  rewrite Zplus_mod_idemp_l. reflexivity.
Qed.

Lemma to_int_small (x : Z) : INT_MIN <= x <= INT_MAX -> to_int x = x.
Proof.
  unfold to_int, INT_MIN, INT_MAX, UINT_MODULUS. intros Hx.
  rewrite Z.mod_small; lia.
Qed.

Lemma to_int_range (x : Z) : INT_MIN <= to_int x <= INT_MAX.
Proof.
  unfold to_int, INT_MIN, INT_MAX, UINT_MODULUS.
  pose proof (Z.mod_pos_bound (x + 2 ^ 31) (2 ^ 32) ltac:(lia)). lia.
Qed.

Example to_int_of_all_ones : to_int (to_unsigned (-1)) = -1.
Proof. reflexivity. Qed.

Example to_int_of_top_bit : to_int (to_unsigned (2 ^ 31)) = INT_MIN.
Proof. reflexivity. Qed.

End CIntFacts.

Module EigenFacts.

Import Eigen.

Section VectorFacts.

Context {Scalar : Type}.

Implicit Types v w : @Vector Scalar.

Lemma rows_nonneg v : 0 <= rows v.
Proof. unfold rows. lia. Qed.

Lemma rows_app v w : rows (v ++ w) = rows v + rows w.
Proof. unfold rows. rewrite length_app. lia. Qed.

Lemma rows_firstn v (n : Z) : 0 <= n <= rows v -> rows (firstn (Z.to_nat n) v) = n.
Proof. unfold rows. intros Hn. rewrite length_firstn. lia. Qed.

Lemma rows_skipn v (n : Z) : 0 <= n <= rows v -> rows (skipn (Z.to_nat n) v) = rows v - n.
Proof. unfold rows. intros Hn. rewrite length_skipn. lia. Qed.

Lemma to_nat_rows v : Z.to_nat (rows v) = length v.
Proof. unfold rows. lia. Qed.

(** A block that lies inside a prefix is the same block of the whole. *)
Lemma middleRows_app v w (startRow n : Z) (b : Vector) :
  middleRows v startRow n = Some b -> middleRows (v ++ w) startRow n = Some b.
Proof.
  unfold middleRows.
  destruct ((0 <=? startRow) && (0 <=? n) && (startRow + n <=? rows v)) eqn:E;
    [|discriminate].
  apply andb_prop in E as [E E3]. apply andb_prop in E as [E1 E2].
  apply Z.leb_le in E1, E2, E3.
  intros [= <-].
  rewrite rows_app. pose proof (rows_nonneg w).
  replace ((0 <=? startRow) && (0 <=? n) && (startRow + n <=? rows v + rows w))
    with true
    by (symmetry; rewrite !andb_true_iff; repeat split; apply Z.leb_le; lia).
  f_equal. unfold rows in E3.
  rewrite skipn_app, firstn_app, length_skipn.
  replace (Z.to_nat n - (length v - Z.to_nat startRow))%nat with 0%nat by lia.
  rewrite firstn_O, app_nil_r. reflexivity.
Qed.

(** The block that starts where a prefix ends. *)
Lemma middleRows_after v w (n : Z) :
  0 <= n <= rows w ->
  middleRows (v ++ w) (rows v) n = Some (firstn (Z.to_nat n) w).
Proof.
  intros Hn. unfold middleRows. rewrite rows_app.
  pose proof (rows_nonneg v).
  replace ((0 <=? rows v) && (0 <=? n) && (rows v + n <=? rows v + rows w))
    with true
    by (symmetry; rewrite !andb_true_iff; repeat split; apply Z.leb_le; lia).
  rewrite to_nat_rows, skipn_app, skipn_all, Nat.sub_diag. reflexivity.
Qed.

Lemma middleRows_out_of_range v (startRow n : Z) :
  rows v < startRow + n -> middleRows v startRow n = None.
Proof.
  intros Hlt. unfold middleRows.
  replace (startRow + n <=? rows v) with false
    by (symmetry; apply Z.leb_gt; lia).
  rewrite andb_false_r. reflexivity.
Qed.

Lemma middleRows_rows v (startRow n : Z) (b : Vector) :
  middleRows v startRow n = Some b -> rows b = n /\ 0 <= startRow /\ 0 <= n /\ startRow + n <= rows v.
Proof.
  unfold middleRows.
  destruct ((0 <=? startRow) && (0 <=? n) && (startRow + n <=? rows v)) eqn:E;
    [|discriminate].
  apply andb_prop in E as [E E3]. apply andb_prop in E as [E1 E2].
  apply Z.leb_le in E1, E2, E3.
  intros [= <-]. repeat split; try lia.
  unfold rows in *. rewrite length_firstn, length_skipn. lia.
Qed.

(** Writing a block right after a prefix, over the head of what follows. *)
Lemma assign_middleRows_after v w (src : Vector) (n : Z) :
  0 <= n <= rows w -> rows src = n ->
  assign_middleRows (v ++ w) (rows v) n src
  = Some (v ++ src ++ skipn (Z.to_nat n) w).
Proof.
  intros Hn Hsrc. unfold assign_middleRows. rewrite rows_app.
  pose proof (rows_nonneg v).
  replace ((0 <=? rows v) && (0 <=? n) && (rows v + n <=? rows v + rows w)
           && (rows src =? n)) with true
    by (symmetry; rewrite !andb_true_iff; repeat split;
        try (apply Z.leb_le; lia); apply Z.eqb_eq; lia).
  f_equal. rewrite to_nat_rows, firstn_app, firstn_all, Nat.sub_diag, firstn_O, app_nil_r.
  f_equal. f_equal.
  rewrite skipn_app.
  replace (Z.to_nat (rows v + n)) with (length v + Z.to_nat n)%nat
    by (unfold rows; lia).
  rewrite skipn_all2 by lia.
  replace (length v + Z.to_nat n - length v)%nat with (Z.to_nat n) by lia.
  reflexivity.
Qed.

End VectorFacts.

End EigenFacts.

(* ===================================================================== *)
(** * Facts on the composed process model *)
(* ===================================================================== *)

Module ComposedFacts.

Import CInt Eigen Composed CIntFacts EigenFacts.

Section Facts.

Context {Scalar : Type} {M : Type} `{StationaryProcessModel (Scalar := Scalar) M}.

Local Abbreviation Vec := (@Vector Scalar).

Implicit Types (h : @Store M) (m : ComposedStationaryProcessModel)
  (pms : ProcessModelList).

(** An [unsigned] accumulation is the sum, reduced once at the end. *)
Lemma unsigned_accumulate (size : M -> Z) h pms (acc : Z) :
  fold_left (fun total p => to_unsigned (total + to_unsigned (size (h p))))
    pms (to_unsigned acc)
  = to_unsigned (acc + sum_sizes size h pms).
Proof.
  revert acc. induction pms as [|p pms IH]; intros acc; simpl.
  - rewrite Z.add_0_r. reflexivity.
  - rewrite to_unsigned_add, to_unsigned_add_l, IH.
    f_equal. lia.
Qed.

Lemma total_count_state_sum h pms :
  total_count_state h pms = to_unsigned (sum_sizes variableSize h pms).
Proof. exact (unsigned_accumulate variableSize h pms 0). Qed.

Lemma total_count_randoms_sum h pms :
  total_count_randoms h pms = to_unsigned (sum_sizes randomsSize h pms).
Proof. exact (unsigned_accumulate randomsSize h pms 0). Qed.

Lemma total_count_control_sum h pms :
  total_count_control h pms = to_unsigned (sum_sizes controlSize h pms).
Proof. exact (unsigned_accumulate controlSize h pms 0). Qed.

Lemma composed_variableSize_wraps h m :
  composed_variableSize h m
  = to_int (sum_sizes variableSize h (process_models_ m)).
Proof.
  unfold composed_variableSize.
  now rewrite total_count_state_sum, to_int_to_unsigned.
Qed.

Lemma composed_randomsSize_wraps h m :
  composed_randomsSize h m
  = to_int (sum_sizes randomsSize h (process_models_ m)).
Proof.
  unfold composed_randomsSize.
  now rewrite total_count_randoms_sum, to_int_to_unsigned.
Qed.

Lemma composed_controlSize_wraps h m :
  composed_controlSize h m
  = to_int (sum_sizes controlSize h (process_models_ m)).
Proof.
  unfold composed_controlSize.
  now rewrite total_count_control_sum, to_int_to_unsigned.
Qed.

Lemma sum_sizes_nonneg (size : M -> Z) h pms :
  (forall p, In p pms -> 0 <= size (h p)) -> 0 <= sum_sizes size h pms.
Proof.
  induction pms as [|p pms IH]; simpl; intros Hpos; [lia|].
  assert (0 <= size (h p)) by (apply Hpos; now left).
  assert (0 <= sum_sizes size h pms) by (apply IH; intros; apply Hpos; now right).
  lia.
Qed.

Lemma composed_size_exact (size : M -> Z) h pms :
  (forall p, In p pms -> 0 <= size (h p)) ->
  sum_sizes size h pms <= INT_MAX ->
  to_int (to_unsigned (sum_sizes size h pms)) = sum_sizes size h pms.
Proof.
  intros Hpos Hmax. rewrite to_int_to_unsigned. apply to_int_small.
  pose proof (sum_sizes_nonneg size h pms Hpos). unfold INT_MIN. lia.
Qed.

Local Open Scope asserting_scope.

(** The loop invariant of [mapFromGaussian]: [done] is the part of the
    variable written so far, [used] the noise consumed so far. *)
Lemma mapFromGaussian_loop_blocks h pms :
  (forall p, In p pms -> conforming (h p)) ->
  forall (done todo used rest_r : Vec),
  rows todo = sum_sizes variableSize h pms ->
  sum_sizes randomsSize h pms <= rows rest_r ->
  exists outs,
    component_blocks h pms
      (slices (map (fun p => randomsSize (h p)) pms) rest_r) = Some outs /\
    rows (concat outs) = sum_sizes variableSize h pms /\
    mapFromGaussian_loop h pms (used ++ rest_r) (done ++ todo)
      (rows done) (rows used) = Some (done ++ concat outs).
Proof.
  induction pms as [|p pms IH]; intros Hconf done todo used rest_r Htodo Hrest.
  - exists []. simpl in *. repeat split.
    destruct todo; [reflexivity | unfold rows in Htodo; simpl in Htodo; lia].
  - simpl in Htodo, Hrest.
    destruct (Hconf p (or_introl eq_refl)) as (Hv & Hr & Hmap).
    assert (Hconf' : forall q, In q pms -> conforming (h q))
      by (intros q Hq; apply Hconf; now right).
    assert (0 <= sum_sizes variableSize h pms)
      by (apply sum_sizes_nonneg; intros q Hq; apply (Hconf' q Hq)).
    assert (0 <= sum_sizes randomsSize h pms)
      by (apply sum_sizes_nonneg; intros q Hq; apply (Hconf' q Hq)).
    set (part := firstn (Z.to_nat (randomsSize (h p))) rest_r).
    assert (Hpart : rows part = randomsSize (h p))
      by (apply rows_firstn; lia).
    destruct (Hmap part Hpart) as (v & Hv_eq & Hv_rows).
    destruct (IH Hconf' (done ++ v) (skipn (Z.to_nat (variableSize (h p))) todo)
                (used ++ part) (skipn (Z.to_nat (randomsSize (h p))) rest_r))
      as (outs & Hblocks & Hrows & Hloop).
    { rewrite rows_skipn; lia. }
    { rewrite rows_skipn; lia. }
    exists (v :: outs). simpl. fold part.
    rewrite Hv_eq. simpl. rewrite Hblocks. simpl.
    split; [reflexivity|]. split; [rewrite rows_app; lia|].
    rewrite middleRows_after by lia. simpl. fold part. rewrite Hv_eq. simpl.
    rewrite assign_middleRows_after by lia. simpl.
    rewrite <- app_assoc in Hloop. unfold part in Hloop at 1.
    rewrite firstn_skipn in Hloop.
    rewrite !rows_app, Hv_rows, Hpart in Hloop.
    rewrite (app_assoc done v), Hloop, <- app_assoc. reflexivity.
Qed.

(** Rows beyond the last slice are never read by the loop. *)
Lemma mapFromGaussian_loop_surplus h pms (randoms extra variables out : Vec)
    (variable_index random_index : Z) :
  mapFromGaussian_loop h pms randoms variables variable_index random_index
    = Some out ->
  mapFromGaussian_loop h pms (randoms ++ extra) variables variable_index
    random_index = Some out.
Proof.
  revert variables variable_index random_index.
  induction pms as [|p pms IH]; intros variables vi ri; simpl; [easy|].
  destruct (middleRows randoms ri (randomsSize (h p))) as [r|] eqn:Hr;
    [|discriminate].
  rewrite (middleRows_app _ extra _ _ _ Hr). simpl.
  destruct (mapFromGaussian (h p) r) as [v|]; [|discriminate]. simpl.
  destruct (assign_middleRows variables vi (variableSize (h p)) v) as [vars'|];
    [|discriminate]. simpl.
  apply IH.
Qed.

(** A noise vector too short for the slices stops the loop: some slice
    runs past its end. *)
Lemma mapFromGaussian_loop_short h pms (randoms variables : Vec)
    (variable_index random_index : Z) :
  (forall p, In p pms -> 0 <= randomsSize (h p)) ->
  random_index <= rows randoms < random_index + sum_sizes randomsSize h pms ->
  mapFromGaussian_loop h pms randoms variables variable_index random_index
    = None.
Proof.
  revert variables variable_index random_index.
  induction pms as [|p pms IH]; intros variables vi ri Hpos Hshort; simpl in *.
  - lia.
  - destruct (middleRows randoms ri (randomsSize (h p))) as [r|] eqn:Hr;
      [|reflexivity]. simpl.
    apply middleRows_rows in Hr as (_ & _ & _ & Hin).
    destruct (mapFromGaussian (h p) r) as [v|]; [|reflexivity]. simpl.
    destruct (assign_middleRows variables vi (variableSize (h p)) v) as [vars'|];
      [|reflexivity]. simpl.
    apply IH; [intros q Hq; apply Hpos; now right | lia].
Qed.

(** The same for [conditionals]: rows of the state and of the control
    beyond the last slice are never read. *)
Lemma conditionals_loop_surplus pms : forall h (delta_time : Scalar)
    (state control extra_state extra_control : Vec)
    (state_index control_index : Z) (h' : @Store M),
  conditionals_loop h pms delta_time state control state_index control_index
    = Some h' ->
  conditionals_loop h pms delta_time (state ++ extra_state)
    (control ++ extra_control) state_index control_index = Some h'.
Proof.
  induction pms as [|p pms IH]; intros h dt state control es ec si ci h';
    simpl; [easy|].
  destruct (middleRows state si (variableSize (h p))) as [s|] eqn:Hs;
    [|discriminate].
  rewrite (middleRows_app _ es _ _ _ Hs). simpl.
  destruct (middleRows control ci (controlSize (h p))) as [c|] eqn:Hc;
    [|discriminate].
  rewrite (middleRows_app _ ec _ _ _ Hc). simpl.
  destruct (conditionals (h p) dt s c) as [o|]; [|discriminate]. simpl.
  apply IH.
Qed.

End Facts.

End ComposedFacts.

(* ===================================================================== *)
(** * The composed process model: sizes, stacking, vector lengths *)
(* ===================================================================== *)

Module ComposedClaims.

Import CInt Eigen Composed CIntFacts EigenFacts ComposedFacts.

Section OnComponents.

Context {Scalar : Type} {M : Type} `{StationaryProcessModel (Scalar := Scalar) M}.

Local Abbreviation Vec := (@Vector Scalar).

Implicit Types (h : @Store M) (m : ComposedStationaryProcessModel).

(** C8 (as amended). [variableSize()], [randomsSize()] and [controlSize()]
    of a composed model are the sums of the components' sizes computed in
    32-bit arithmetic: each is the sum reduced to the range of [int], and
    is the sum itself whenever the sum lies in that range. *)
Theorem composed_sizes_are_int_sums h m :
  (composed_variableSize h m
     = to_int (sum_sizes variableSize h (process_models_ m)) /\
   (INT_MIN <= sum_sizes variableSize h (process_models_ m) <= INT_MAX ->
    composed_variableSize h m
      = sum_sizes variableSize h (process_models_ m))) /\
  (composed_randomsSize h m
     = to_int (sum_sizes randomsSize h (process_models_ m)) /\
   (INT_MIN <= sum_sizes randomsSize h (process_models_ m) <= INT_MAX ->
    composed_randomsSize h m
      = sum_sizes randomsSize h (process_models_ m))) /\
  (composed_controlSize h m
     = to_int (sum_sizes controlSize h (process_models_ m)) /\
   (INT_MIN <= sum_sizes controlSize h (process_models_ m) <= INT_MAX ->
    composed_controlSize h m
      = sum_sizes controlSize h (process_models_ m))).
Proof.
  rewrite composed_variableSize_wraps, composed_randomsSize_wraps,
    composed_controlSize_wraps.
  repeat split; intros Hrange; now apply to_int_small.
Qed.

Lemma slices_tile (sizes : list Z) (v : Vec) :
  (forall n, In n sizes -> 0 <= n) ->
  fold_right Z.add 0 sizes = rows v ->
  concat (slices sizes v) = v /\
  Forall2 (fun n part => rows part = n) sizes (slices sizes v).
Proof.
  revert v. induction sizes as [|n sizes IH]; intros v Hpos Hsum; simpl in *.
  - split; [|constructor].
    destruct v; [reflexivity | unfold rows in Hsum; simpl in Hsum; lia].
  - assert (0 <= n) by (apply Hpos; now left).
    assert (0 <= fold_right Z.add 0 sizes).
    { clear -Hpos. induction sizes as [|k sizes IH]; simpl; [lia|].
      assert (0 <= k) by (apply Hpos; right; now left).
      assert (0 <= fold_right Z.add 0 sizes)
        by (apply IH; intros j [->|Hj]; apply Hpos; [now left | right; now right]).
      lia. }
    destruct (IH (skipn (Z.to_nat n) v)) as [Hcat Hall].
    { intros k Hk. apply Hpos. now right. }
    { rewrite rows_skipn; lia. }
    split.
    + rewrite Hcat. apply firstn_skipn.
    + constructor; [apply rows_firstn; lia | exact Hall].
Qed.

Lemma sum_sizes_map (size : M -> Z) h (pms : ProcessModelList) :
  fold_right Z.add 0 (map (fun p => size (h p)) pms) = sum_sizes size h pms.
Proof. induction pms as [|p pms IH]; simpl; [reflexivity | now rewrite IH]. Qed.

(** C9 (as amended). For a composed model whose components keep the
    contract of the interface and whose total sizes are representable as
    [int], and for a noise vector of [randomsSize()] rows,
    [mapFromGaussian] returns the vertical concatenation, in the order of
    the list, of each component's [mapFromGaussian] on its own slice; the
    slices are consecutive, disjoint, of the components' [randomsSize()]
    rows, and tile the noise vector; the result has [variableSize()] rows. *)
Theorem composed_mapFromGaussian_stacks (fill : Scalar) h m (randoms : Vec) :
  (forall p, In p (process_models_ m) -> conforming (h p)) ->
  representable variableSize h m ->
  representable randomsSize h m ->
  rows randoms = composed_randomsSize h m ->
  exists out,
    composed_mapFromGaussian fill h m randoms = Some out /\
    stacked_mapFromGaussian h m randoms = Some out /\
    rows out = composed_variableSize h m /\
    concat (component_slices h (process_models_ m) randoms) = randoms /\
    Forall2 (fun p part => rows part = randomsSize (h p))
      (process_models_ m) (component_slices h (process_models_ m) randoms).
Proof.
  intros Hconf Hv Hr Hrows. unfold representable in Hv, Hr.
  pose proof (composed_variableSize_wraps h m) as Ev.
  pose proof (composed_randomsSize_wraps h m) as Er.
  assert (Hvpos : forall p, In p (process_models_ m) -> 0 <= variableSize (h p))
    by (intros p Hp; apply (Hconf p Hp)).
  assert (Hrpos : forall p, In p (process_models_ m) -> 0 <= randomsSize (h p))
    by (intros p Hp; apply (Hconf p Hp)).
  pose proof (sum_sizes_nonneg variableSize h _ Hvpos) as Hv0.
  pose proof (sum_sizes_nonneg randomsSize h _ Hrpos) as Hr0.
  rewrite to_int_small in Ev by (unfold INT_MIN; lia).
  rewrite to_int_small in Er by (unfold INT_MIN; lia).
  rewrite Er in Hrows.
  destruct (mapFromGaussian_loop_blocks h (process_models_ m) Hconf
              [] (repeat fill (Z.to_nat (composed_variableSize h m))) [] randoms)
    as (outs & Hblocks & Hrows_out & Hloop).
  { unfold rows. rewrite repeat_length, Ev. lia. }
  { lia. }
  exists (concat outs). simpl in Hloop.
  split; [|split; [|split]].
  - unfold composed_mapFromGaussian, Vector_ctor.
    replace (0 <=? composed_variableSize h m) with true
      by (symmetry; apply Z.leb_le; lia).
    exact Hloop.
  - unfold stacked_mapFromGaussian, component_slices. rewrite Hblocks.
    reflexivity.
  - lia.
  - unfold component_slices.
    destruct (slices_tile (map (fun p => randomsSize (h p)) (process_models_ m))
                randoms) as [Hcat Hall].
    { intros n Hn. apply in_map_iff in Hn as (p & <- & Hp). now apply Hrpos. }
    { rewrite sum_sizes_map. lia. }
    split; [exact Hcat|].
    clear -Hall. revert Hall.
    generalize (slices (map (fun p => randomsSize (h p)) (process_models_ m)) randoms).
    induction (process_models_ m) as [|p pms IH]; intros parts Hall;
      inversion Hall; subst; constructor; auto.
Qed.

(** C4 (as amended). The composed model checks no length at its call
    boundary. [mapFromGaussian] and [conditionals] hand each component its
    slice and never look beyond the last slice: a vector that extends an
    accepted one by further rows is accepted too, with the same result.
    A noise vector with fewer rows than the components' slices need is
    stopped only by the range assertion of Eigen's [middleRows]. *)
Theorem composed_checks_no_length (fill : Scalar) h m :
  (forall (randoms extra out : Vec),
     composed_mapFromGaussian fill h m randoms = Some out ->
     composed_mapFromGaussian fill h m (randoms ++ extra) = Some out) /\
  (forall (delta_time : Scalar) (state control extra_state extra_control : Vec)
          (h' : @Store M),
     composed_conditionals h m delta_time state control = Some h' ->
     composed_conditionals h m delta_time (state ++ extra_state)
       (control ++ extra_control) = Some h') /\
  (forall randoms : Vec,
     (forall p, In p (process_models_ m) -> 0 <= randomsSize (h p)) ->
     rows randoms < sum_sizes randomsSize h (process_models_ m) ->
     composed_mapFromGaussian fill h m randoms = None).
Proof.
  split; [|split].
  - intros randoms extra out. unfold composed_mapFromGaussian.
    destruct (Vector_ctor fill (composed_variableSize h m)) as [variables|];
      [|discriminate]. simpl.
    apply mapFromGaussian_loop_surplus.
  - intros dt state control es ec h'. unfold composed_conditionals.
    apply conditionals_loop_surplus.
  - intros randoms Hpos Hshort. unfold composed_mapFromGaussian.
    destruct (Vector_ctor fill (composed_variableSize h m)) as [variables|];
      [|reflexivity]. simpl.
    apply mapFromGaussian_loop_short; [exact Hpos|].
    pose proof (rows_nonneg randoms). lia.
Qed.

End OnComponents.

End ComposedClaims.

(* ===================================================================== *)
(** * The composed model on concrete components *)
(* ===================================================================== *)

Module ComposedExamples.

Import CInt Eigen Composed ComposedDemo EigenFacts ComposedClaims.

Lemma rows_resize (n : Z) (v : list Z) : 0 <= n -> rows (resize n v) = n.
Proof.
  intros Hn. unfold resize, rows.
  rewrite length_firstn, length_app, repeat_length. lia.
Qed.

Lemma GainModel_conforming (g : GainModel) :
  0 <= dim_variable g -> 0 <= dim_randoms g -> conforming g.
Proof.
  intros Hv Hr. repeat split; try assumption.
  intros r _. eexists. split; [reflexivity|]. now apply rows_resize.
Qed.

Example small_model_sizes :
  composed_variableSize small_store small_model = 3 /\
  composed_randomsSize small_store small_model = 3 /\
  composed_controlSize small_store small_model = 2.
Proof. repeat split. Qed.

Example small_model_maps :
  composed_mapFromGaussian 0 small_store small_model [1; 2; 3]
  = Some [10; 20; 300].
Proof. reflexivity. Qed.

Example small_model_conditions :
  option_map (fun h' => (offset (h' 0%nat), offset (h' 1%nat)))
    (composed_conditionals small_store small_model 2 [1; 2; 3] [5; 6])
  = Some (16, 18).
Proof. reflexivity. Qed.

(** Both entries of [aliased_model] name one object: it is conditioned
    twice, and keeps what the second slice left. *)
Example aliased_model_conditions :
  composed_variableSize small_store aliased_model = 4 /\
  option_map (fun h' => offset (h' 0%nat))
    (composed_conditionals small_store aliased_model 2 [1; 2; 3; 4] [5; 6])
  = Some 26.
Proof. split; reflexivity. Qed.

(** A composed model of composed models. *)
Example nested_model_maps :
  composed_variableSize (H := Composed_model 0) nested_store nested_model = 6 /\
  composed_mapFromGaussian (H := Composed_model 0) 0 nested_store nested_model
    [1; 2; 3; 4; 5; 6]
  = Some [10; 20; 300; 40; 50; 600].
Proof. split; reflexivity. Qed.

(** The unsigned accumulator wraps: the declared sizes add up to
    [2^32 + 1], the composed model reports 1. *)
Lemma wide_model_size_wraps :
  sum_sizes variableSize wide_store (process_models_ wide_model) = 4294967297 /\
  composed_variableSize wide_store wide_model = 1 /\
  composed_variableSize wide_store wide_model
    <> sum_sizes variableSize wide_store (process_models_ wide_model).
Proof. repeat split. vm_compute. discriminate. Qed.

(** The theorem of C8 on the two-component model: its three variable rows
    are within the range of [int], so [variableSize()] is their sum. *)
Lemma composed_sizes_are_int_sums_witness :
  INT_MIN <= sum_sizes variableSize small_store (process_models_ small_model)
    <= INT_MAX /\
  composed_variableSize small_store small_model
    = sum_sizes variableSize small_store (process_models_ small_model).
Proof.
  assert (Hrange : INT_MIN
            <= sum_sizes variableSize small_store (process_models_ small_model)
            <= INT_MAX) by (vm_compute; split; discriminate).
  split; [exact Hrange|].
  exact (proj2 (proj1 (composed_sizes_are_int_sums small_store small_model))
           Hrange).
Defined.

Lemma small_store_conforming (p : ptr) : conforming (small_store p).
Proof.
  destruct p as [|p]; apply GainModel_conforming; simpl; lia.
Qed.

(** The theorem of C9 on the two-component model and a noise vector of its
    three declared rows. *)
Lemma composed_mapFromGaussian_stacks_witness :
  exists out,
    composed_mapFromGaussian 0 small_store small_model [1; 2; 3] = Some out /\
    stacked_mapFromGaussian small_store small_model [1; 2; 3] = Some out /\
    rows out = composed_variableSize small_store small_model /\
    concat (component_slices small_store (process_models_ small_model) [1; 2; 3])
      = [1; 2; 3] /\
    Forall2 (fun p part => rows part = randomsSize (small_store p))
      (process_models_ small_model)
      (component_slices small_store (process_models_ small_model) [1; 2; 3]).
Proof.
  apply (composed_mapFromGaussian_stacks 0 small_store small_model [1; 2; 3]).
  - intros p _. apply small_store_conforming.
  - unfold representable. vm_compute. discriminate.
  - unfold representable. vm_compute. discriminate.
  - reflexivity.
Defined.

(** Conforming components whose noise sizes add up to [2^32]: the composed
    model declares [randomsSize() = 0], and on the noise vector of that
    length the first slice already falls outside the vector. *)
Lemma noisy_model_does_not_stack :
  (forall p, conforming (noisy_store p)) /\
  rows (@nil Z) = composed_randomsSize noisy_store noisy_model /\
  composed_mapFromGaussian 0 noisy_store noisy_model [] = None.
Proof.
  split; [|split].
  - intros [|[|p]]; apply GainModel_conforming; simpl; lia.
  - vm_compute. reflexivity.
  - vm_compute. reflexivity.
Qed.

(** Vectors longer than the declared sizes are taken without complaint:
    four noise rows where three are declared, five state rows and three
    control rows where three and two are declared. *)
Lemma longer_vectors_are_accepted :
  rows [1; 2; 3; 4] <> composed_randomsSize small_store small_model /\
  composed_mapFromGaussian 0 small_store small_model [1; 2; 3; 4]
    = Some [10; 20; 300] /\
  rows [1; 2; 3; 9; 9] <> composed_variableSize small_store small_model /\
  rows [5; 6; 7] <> composed_controlSize small_store small_model /\
  option_map (fun h' => (offset (h' 0%nat), offset (h' 1%nat)))
    (composed_conditionals small_store small_model 2 [1; 2; 3; 9; 9] [5; 6; 7])
    = Some (16, 18).
Proof. repeat split; vm_compute; discriminate. Qed.

(** The theorem of C4 on the two-component model: a fourth noise row
    changes nothing, a missing third row stops the loop. *)
Lemma composed_checks_no_length_witness :
  composed_mapFromGaussian 0 small_store small_model ([1; 2; 3] ++ [4])
    = Some [10; 20; 300] /\
  composed_mapFromGaussian 0 small_store small_model [1; 2] = None.
Proof.
  split.
  - exact (proj1 (composed_checks_no_length 0 small_store small_model)
             [1; 2; 3] [4] [10; 20; 300] eq_refl).
  - apply (proj2 (proj2 (composed_checks_no_length 0 small_store small_model))).
    + intros p _. apply small_store_conforming.
    + vm_compute. reflexivity.
Defined.

End ComposedExamples.

(* ===================================================================== *)
(** * The robust wrapper: what it calls, in which order, on what *)
(* ===================================================================== *)

Module RobustClaims.

Import Robust.

Section OnFilter.

Context {T : Traits}.
Context {StateTransitionFunction ObservationFunction Quadrature : Type}.
Context {OF : ObservationFunctionInterface ObservationFunction}.
Context {C : @Collaborators T StateTransitionFunction ObservationFunction Quadrature}.

Local Abbreviation Filter :=
  (@RobustGaussianFilter T StateTransitionFunction ObservationFunction Quadrature).
Local Abbreviation Trace := (list (@Call T)).

Implicit Types (t : Filter) (log : Trace).

(** What [update] leaves behind: the four calls, the calibrated object. *)
Lemma update_run t log (predicted_belief : Belief) (obsrv : Obsrv) :
  update predicted_belief obsrv {| this := t; calls := log |}
  = (BaseGaussianFilter_update
       {| process_model_ := process_model t;
          obsrv_model_ := calibrated_model t predicted_belief;
          quadrature_ := quadrature_ (gaussian_filter_ t) |}
       predicted_belief
       (feature_transform (calibrated_model t predicted_belief) obsrv),
     {| this := {| gaussian_filter_ :=
                     {| process_model_ := process_model t;
                        obsrv_model_ := calibrated_model t predicted_belief;
                        quadrature_ := quadrature_ (gaussian_filter_ t) |} |};
        calls := log ++
          [ call_integrate_moments
              (fun x w => observation (obsrv_model t) x w)
              predicted_belief
              (Gaussian_Noise_ctor (noise_dimension (obsrv_model t)))
              (Gaussian_Obsrv_ctor (obsrv_dimension (obsrv_model t)));
            call_parameters (body_distribution t predicted_belief)
              (mean predicted_belief);
            call_feature_obsrv obsrv;
            call_update predicted_belief
              (feature_transform (calibrated_model t predicted_belief) obsrv) ]
     |}).
Proof.
  unfold update, integrate_moments, obsrv_model_parameters,
    obsrv_model_feature_obsrv, gaussian_filter_update, set_obsrv_model,
    called, get_this, bind, ret.
  cbn [this calls gaussian_filter_ obsrv_model_ quadrature_ process_model_ fst snd].
  rewrite <- !app_assoc. reflexivity.
Qed.

Lemma predict_run t log (prior_belief : Belief) (input : Input) :
  predict prior_belief input {| this := t; calls := log |}
  = (BaseGaussianFilter_predict (gaussian_filter_ t) prior_belief input,
     {| this := t; calls := log ++ [call_predict prior_belief input] |}).
Proof. reflexivity. Qed.

Lemma same_parameters_refl t : same_parameters t t.
Proof. repeat split. Qed.

Lemma same_parameters_trans t1 t2 t3 :
  same_parameters t1 t2 -> same_parameters t2 t3 -> same_parameters t1 t3.
Proof.
  intros (Hp & Ho & Hq) (Hp' & Ho' & Hq'). repeat split; congruence.
Qed.

(** A step changes nothing but the calibration of the feature model. *)
Lemma step_keeps_parameters (s : Step) t :
  same_parameters t (this (snd (step s (enter t)))).
Proof.
  destruct s as [prior input | predicted obsrv]; unfold enter, step.
  - rewrite predict_run. apply same_parameters_refl.
  - rewrite update_run. repeat split.
Qed.

Lemma after_keeps_parameters (steps : list Step) t :
  same_parameters t (after steps t).
Proof.
  revert t. induction steps as [|s steps IH]; intros t; simpl.
  - apply same_parameters_refl.
  - eapply same_parameters_trans; [apply step_keeps_parameters | apply IH].
Qed.

Lemma same_parameters_body (predicted_belief : Belief) t t' :
  same_parameters t t' ->
  body_distribution t predicted_belief = body_distribution t' predicted_belief.
Proof.
  intros (_ & Ho & Hq). unfold body_distribution. now rewrite Ho, Hq.
Qed.

Lemma same_parameters_calibrated (predicted_belief : Belief) t t' :
  same_parameters t t' ->
  calibrated_model t predicted_belief = calibrated_model t' predicted_belief.
Proof.
  intros Hsame. unfold calibrated_model, parameters.
  rewrite (same_parameters_body predicted_belief t t' Hsame).
  destruct Hsame as (_ & Ho & _). unfold obsrv_model in Ho.
  unfold robust_feature_obsrv_model. now rewrite Ho.
Qed.

(** C1. [update] makes four calls, in this order and nothing else: the
    quadrature integrates the moments of the raw observation function under
    the predicted belief and the noise distribution, which yields the body
    distribution; the body distribution is passed to [parameters] of the
    feature model; the feature model transforms the raw observation; the
    engine's [update] runs on the feature observation, on the model so
    calibrated, and what it returns is the posterior belief. *)
Theorem update_calls_in_order t log (predicted_belief : Belief) (obsrv : Obsrv) :
  calls (snd (update predicted_belief obsrv {| this := t; calls := log |}))
  = log ++
      [ call_integrate_moments
          (fun x w => observation (obsrv_model t) x w)
          predicted_belief
          (Gaussian_Noise_ctor (noise_dimension (obsrv_model t)))
          (Gaussian_Obsrv_ctor (obsrv_dimension (obsrv_model t)));
        call_parameters (body_distribution t predicted_belief)
          (mean predicted_belief);
        call_feature_obsrv obsrv;
        call_update predicted_belief
          (feature_transform (calibrated_model t predicted_belief) obsrv) ] /\
  robust_feature_obsrv_model
    (this (snd (update predicted_belief obsrv {| this := t; calls := log |})))
  = calibrated_model t predicted_belief /\
  body_gaussian_ (calibrated_model t predicted_belief)
  = Some (body_distribution t predicted_belief) /\
  fst (update predicted_belief obsrv {| this := t; calls := log |})
  = BaseGaussianFilter_update
      (gaussian_filter_
         (this (snd (update predicted_belief obsrv
                       {| this := t; calls := log |}))))
      predicted_belief
      (feature_transform (calibrated_model t predicted_belief) obsrv).
Proof.
  rewrite update_run. cbn [fst snd this calls gaussian_filter_].
  repeat split.
Qed.

(** C3. [predict] of the wrapper is [predict] of the wrapped engine: one
    call, with the same arguments, whose result is returned as it is and
    which leaves the object as it was. The wrapped engine is the one built
    on the feature model, and whatever [predict] and [update] steps came
    before, the predicted belief is the one the engine as constructed
    computes. *)
Theorem predict_is_engine_predict :
  (forall t log (prior_belief : Belief) (input : Input),
     predict prior_belief input {| this := t; calls := log |}
     = (BaseGaussianFilter_predict (gaussian_filter_ t) prior_belief input,
        {| this := t; calls := log ++ [call_predict prior_belief input] |})) /\
  (forall (process_model : StateTransitionFunction)
          (obsrv_model : ObservationFunction) (args : Quadrature)
          (steps : list Step) (prior_belief : Belief) (input : Input),
     fst (predict prior_belief input
            (enter (after steps
                      (RobustGaussianFilter_ctor process_model obsrv_model args))))
     = BaseGaussianFilter_predict
         (BaseGaussianFilter_ctor process_model
            (FeatureObsrvModel_ctor obsrv_model) args)
         prior_belief input).
Proof.
  split.
  - intros. apply predict_run.
  - intros pm om q steps prior input. unfold enter. rewrite predict_run.
    cbn [fst].
    destruct (after_keeps_parameters steps (RobustGaussianFilter_ctor pm om q))
      as (Hp & _ & Hq).
    unfold BaseGaussianFilter_predict. unfold process_model in Hp.
    rewrite <- Hp, <- Hq. reflexivity.
Qed.

(** C5. The beliefs that [predict] and [update] return are functions of the
    typed inputs and of the model parameters alone: two objects with the
    same process model, raw observation model and quadrature return the same
    beliefs on the same inputs, whatever calibration earlier calls left in
    them and whatever was called before; after [update] the two objects are
    equal. *)
Theorem predict_update_depend_on_parameters_only t t' log log' :
  same_parameters t t' ->
  (forall (prior_belief : Belief) (input : Input),
     fst (predict prior_belief input {| this := t; calls := log |})
     = fst (predict prior_belief input {| this := t'; calls := log' |})) /\
  (forall (predicted_belief : Belief) (obsrv : Obsrv),
     fst (update predicted_belief obsrv {| this := t; calls := log |})
     = fst (update predicted_belief obsrv {| this := t'; calls := log' |}) /\
     this (snd (update predicted_belief obsrv {| this := t; calls := log |}))
     = this (snd (update predicted_belief obsrv {| this := t'; calls := log' |}))).
Proof.
  intros Hsame. split.
  - intros prior input. rewrite !predict_run. cbn [fst].
    destruct Hsame as (Hp & _ & Hq). unfold process_model in Hp.
    unfold BaseGaussianFilter_predict. now rewrite Hp, Hq.
  - intros predicted obsrv. rewrite !update_run. cbn [fst snd this].
    rewrite (same_parameters_calibrated predicted t t' Hsame).
    destruct Hsame as (Hp & _ & Hq). rewrite Hp, Hq. split; reflexivity.
Qed.

(** C7. On a filter constructed from a process model and a raw observation
    model, after any sequence of [predict] and [update] steps:
    [obsrv_model()] returns the raw observation model given to the
    constructor, which is the model embedded in the feature model;
    [robust_feature_obsrv_model()] returns the observation model of the
    wrapped engine, which is the model the engine's [update] runs on. *)
Theorem accessors_return_both_models (process_model : StateTransitionFunction)
    (raw_model : ObservationFunction) (args : Quadrature) (steps : list Step) :
  obsrv_model (after steps (RobustGaussianFilter_ctor process_model raw_model args))
    = raw_model /\
  obsrv_model (after steps (RobustGaussianFilter_ctor process_model raw_model args))
    = embedded_obsrv_model
        (robust_feature_obsrv_model
           (after steps (RobustGaussianFilter_ctor process_model raw_model args))) /\
  robust_feature_obsrv_model
      (after steps (RobustGaussianFilter_ctor process_model raw_model args))
    = obsrv_model_
        (gaussian_filter_
           (after steps (RobustGaussianFilter_ctor process_model raw_model args))) /\
  (forall (predicted_belief : Belief) (obsrv : Obsrv),
     In (call_update predicted_belief
           (feature_transform
              (robust_feature_obsrv_model
                 (after (steps ++ [do_update predicted_belief obsrv])
                    (RobustGaussianFilter_ctor process_model raw_model args)))
              obsrv))
        (calls (snd (update predicted_belief obsrv
                       (enter (after steps
                                 (RobustGaussianFilter_ctor process_model
                                    raw_model args)))))) /\
     fst (update predicted_belief obsrv
            (enter (after steps
                      (RobustGaussianFilter_ctor process_model raw_model args))))
     = update_policy
         (robust_feature_obsrv_model
            (after (steps ++ [do_update predicted_belief obsrv])
               (RobustGaussianFilter_ctor process_model raw_model args)))
         args predicted_belief
         (feature_transform
            (robust_feature_obsrv_model
               (after (steps ++ [do_update predicted_belief obsrv])
                  (RobustGaussianFilter_ctor process_model raw_model args)))
            obsrv)).
Proof.
  pose proof (after_keeps_parameters steps
                (RobustGaussianFilter_ctor process_model raw_model args))
    as (Hp & Ho & Hq).
  split; [symmetry; exact Ho|]. split; [reflexivity|]. split; [reflexivity|].
  intros predicted obsrv.
  assert (Hafter : forall t0 : Filter,
             after (steps ++ [do_update predicted obsrv]) t0
             = this (snd (update predicted obsrv (enter (after steps t0))))).
  { clear. induction steps as [|s steps IH]; intros t0; simpl; [reflexivity|].
    apply IH. }
  rewrite Hafter. unfold enter. rewrite update_run.
  cbn [fst snd this calls gaussian_filter_ app].
  unfold robust_feature_obsrv_model. cbn [gaussian_filter_ obsrv_model_].
  split.
  - right. right. right. left. reflexivity.
  - unfold BaseGaussianFilter_update. cbn [obsrv_model_ quadrature_].
    rewrite <- Hq. reflexivity.
Qed.

(** C10. In a call to [update], the calibration hook [parameters] is called
    with the mean of the predicted belief as its reference state, and this
    call comes before [feature_obsrv] transforms the observation: the
    transform runs on a feature model whose reference state is that mean. *)
Theorem update_calibrates_on_predicted_mean t log
    (predicted_belief : Belief) (obsrv : Obsrv) :
  exists new : Trace,
    calls (snd (update predicted_belief obsrv {| this := t; calls := log |}))
      = log ++ new /\
    (exists body, In (call_parameters body (mean predicted_belief)) new) /\
    Forall (calibrates_on (mean predicted_belief)) new /\
    In (call_feature_obsrv obsrv) new /\
    always_after is_parameters is_feature_obsrv new /\
    (exists fm,
       mean_state_ fm = Some (mean predicted_belief) /\
       In (call_update predicted_belief (feature_transform fm obsrv)) new) /\
    mean_state_
      (robust_feature_obsrv_model
         (this (snd (update predicted_belief obsrv
                       {| this := t; calls := log |}))))
      = Some (mean predicted_belief).
Proof.
  rewrite update_run. cbn [snd this calls].
  eexists. split; [reflexivity|].
  split; [|split; [|split; [|split; [|split]]]].
  - eexists. right. left. reflexivity.
  - repeat constructor.
  - right. right. left. reflexivity.
  - intros l1 d l2 Heq Hd.
    destruct l1 as [|c1 [|c2 [|c3 [|c4 l1]]]]; simpl in Heq.
    + injection Heq as <- _. contradiction.
    + injection Heq as _ <- _. contradiction.
    + injection Heq as _ <- _ _. eexists. split; [right; left; reflexivity|].
      exact I.
    + injection Heq as _ _ _ <- _. contradiction.
    + injection Heq as _ _ _ _ Hnil. destruct l1; discriminate.
  - exists (calibrated_model t predicted_belief). split; [reflexivity|].
    right. right. right. left. reflexivity.
  - reflexivity.
Qed.

End OnFilter.

End RobustClaims.

(* ===================================================================== *)
(** * The wrapper on the scalar filter *)
(* ===================================================================== *)

Module RobustExamples.

Import Robust RobustDemo RobustClaims.

Example scalar_update_returns :
  fst (update belief_5 17 (enter scalar_filter))
  = {| mean := 7; covariance := 1 |}.
Proof. reflexivity. Qed.

Example scalar_update_calls :
  calls (snd (update belief_5 17 (enter scalar_filter)))
  = [ call_integrate_moments (fun x w => 3 * x + w) belief_5
        {| mean := 0; covariance := 1 |} {| mean := 0; covariance := 1 |};
      call_parameters {| mean := 15; covariance := 2 |} 5;
      call_feature_obsrv 17;
      call_update belief_5 2 ].
Proof. reflexivity. Qed.

Example scalar_predict_returns :
  predict belief_5 1 (enter scalar_filter)
  = ({| mean := 11; covariance := 5 |},
     {| this := scalar_filter; calls := [call_predict belief_5 1] |}).
Proof. reflexivity. Qed.

Example used_filter_is_calibrated :
  mean_state_ (robust_feature_obsrv_model used_filter) = Some 8 /\
  mean_state_ (robust_feature_obsrv_model scalar_filter) = None.
Proof. split; reflexivity. Qed.

(** The theorem of C5 on the scalar filter, fresh and after an earlier
    update: the same belief comes out. *)
Lemma predict_update_depend_on_parameters_only_witness :
  same_parameters scalar_filter used_filter /\
  fst (update belief_5 17 {| this := scalar_filter; calls := [] |})
  = fst (update belief_5 17
           {| this := used_filter; calls := [call_feature_obsrv 99] |}).
Proof.
  assert (Hsame : same_parameters scalar_filter used_filter)
    by (repeat split).
  split; [exact Hsame|].
  exact (proj1 (proj2 (predict_update_depend_on_parameters_only
                         scalar_filter used_filter [] [call_feature_obsrv 99]
                         Hsame) belief_5 17)).
Defined.

End RobustExamples.

(* ===================================================================== *)
(** * Sigma-point quadrature is exact on affine functions *)
(* ===================================================================== *)

Module SigmaPointClaims.

Local Set Warnings "-notation-overridden,-ambiguous-paths".
Import mathcomp.boot.boot mathcomp.order.order mathcomp.algebra.algebra.
Local Set Warnings "notation-overridden,ambiguous-paths".
Import GRing.Theory Num.Theory.
Import SigmaPoint.

Local Open Scope ring_scope.

Section Exactness.

Variable F : numFieldType.
Variables (kappa beta : F).
Variable matrix_sqrt : forall n : nat, 'M[F]_n -> 'M[F]_n.

Local Abbreviation points := (sigma_points kappa beta matrix_sqrt).
Local Abbreviation scale := (scaling kappa).
Local Abbreviation w_sym := (symmetric_weight kappa).
Local Abbreviation w_0 := (central_weight kappa).

Lemma sum_col_outer (n : nat) (S : 'M[F]_n) :
  \sum_j col j S *m (col j S)^T = S *m S^T.
Proof.
apply/matrixP=> i k; rw summxE !mxE.
apply: eq_bigr => j _.
by rw !mxE big_ord1 !mxE.
Qed.

Lemma symmetric_weights_scaling (n : nat) :
  scale n != 0 -> (w_sym n + w_sym n) * scale n = 1.
Proof.
rw /symmetric_weight /scaling => H.
field.
Qed.

Lemma weights_sum (n : nat) :
  scale n != 0 -> w_0 n + (w_sym n + w_sym n) *+ n = 1.
Proof.
rw /central_weight /symmetric_weight /scaling => H.
field.
Qed.

Section Affine.

Variables (n m : nat) (A : 'M[F]_(m, n)) (b : 'cV[F]_m) (distr : Gaussian F n).

Hypothesis scaling_nonzero : scale n != 0.
Hypothesis sqrt_spec :
  matrix_sqrt n (scale n *: covariance distr)
  *m (matrix_sqrt n (scale n *: covariance distr))^T
  = scale n *: covariance distr.

Lemma affine_mean_exact :
  weighted_mean (affine A b) (points distr) = A *m mean distr + b.
Proof.
rw /weighted_mean /sigma_points big_cons big_cat !big_map /=.
rw -!enumT !big_enum -big_split.
set S := matrix_sqrt _ _.
have step j : w_sym n *: affine A b (mean distr + col j S)
            + w_sym n *: affine A b (mean distr - col j S)
            = (w_sym n + w_sym n) *: affine A b (mean distr).
  rw /affine mulmxDr mulmxBr scalerDl -!scalerDr; congr (_ *: _).
  rw addrACA (addrACA (A *m mean distr) (A *m col j S)) subrr addr0.
  by rw [RHS]addrACA.
rw (eq_bigr _ (fun j _ => step j)) sumr_const card_ord.
by rw -scaler_nat scalerA -scalerDl mulr_natl weights_sum // scale1r.
Qed.

Lemma affine_covariance_exact :
  weighted_covariance (affine A b) (points distr)
  = A *m covariance distr *m A^T.
Proof.
rw /weighted_covariance affine_mean_exact.
rw /sigma_points big_cons big_cat !big_map /=.
rw -!enumT !big_enum -big_split.
set S := matrix_sqrt _ _.
rw {1}/affine subrr mul0mx scaler0 add0r.
have step j :
    w_sym n *: ((affine A b (mean distr + col j S) - (A *m mean distr + b))
        *m (affine A b (mean distr + col j S) - (A *m mean distr + b))^T)
    + w_sym n *: ((affine A b (mean distr - col j S) - (A *m mean distr + b))
        *m (affine A b (mean distr - col j S) - (A *m mean distr + b))^T)
    = (w_sym n + w_sym n) *: (A *m (col j S *m (col j S)^T) *m A^T).
  have -> : affine A b (mean distr + col j S) - (A *m mean distr + b)
            = A *m col j S.
    apply/eqP; rw subr_eq /affine mulmxDr; apply/eqP.
    by rw addrA [A *m col j S + _]addrC.
  have -> : affine A b (mean distr - col j S) - (A *m mean distr + b)
            = - (A *m col j S).
    apply/eqP; rw subr_eq /affine mulmxBr; apply/eqP.
    by rw addrA [- _ + _]addrC.
  by rw linearN /= mulNmx mulmxN opprK trmx_mul !mulmxA scalerDl.
rw (eq_bigr _ (fun j _ => step j)) -scaler_sumr -mulmx_suml -mulmx_sumr.
rw sum_col_outer sqrt_spec -scalemxAr -scalemxAl scalerA.
by rw symmetric_weights_scaling // scale1r.
Qed.

End Affine.

(** The moments depend on the function only through its values. *)
Lemma integrate_moments_ext (n m : nat) (f g : 'cV[F]_n -> 'cV[F]_m)
    (distr : Gaussian F n) :
  f =1 g ->
  integrate_moments kappa beta matrix_sqrt f distr
  = integrate_moments kappa beta matrix_sqrt g distr.
Proof.
move=> fg; rw /integrate_moments /weighted_covariance /weighted_mean.
have -> : \sum_(p <- points distr) weight_mean p *: f (point p)
        = \sum_(p <- points distr) weight_mean p *: g (point p).
  by apply: eq_bigr => p _; rw fg.
congr Build_Gaussian.
by apply: eq_bigr => p _; rw fg.
Qed.

(** C6. Sigma-point moment integration is exact on affine functions: for
    every dimension, every spread constant that does not cancel the scaling
    and every covariance whose scaled square root the linear algebra
    delivers, the moments of [x |-> A x + b] are [A mean + b] and
    [A covariance A^T]; the identity function gives back the mean and the
    covariance of the Gaussian it is integrated under. *)
Theorem sigma_point_moments_exact_on_affine (n m : nat)
    (A : 'M[F]_(m, n)) (b : 'cV[F]_m) (distr : Gaussian F n) :
  scale n != 0 ->
  matrix_sqrt n (scale n *: covariance distr)
    *m (matrix_sqrt n (scale n *: covariance distr))^T
    = scale n *: covariance distr ->
  integrate_moments kappa beta matrix_sqrt (affine A b) distr
    = {| mean := A *m mean distr + b;
         covariance := A *m covariance distr *m A^T |} /\
  integrate_moments kappa beta matrix_sqrt (fun x => x) distr = distr.
Proof.
move=> Hscale Hsqrt; split.
  by rw /integrate_moments affine_mean_exact // affine_covariance_exact.
have -> : integrate_moments kappa beta matrix_sqrt (fun x => x) distr
        = integrate_moments kappa beta matrix_sqrt (affine 1%:M 0) distr.
  by apply: integrate_moments_ext => x; rw /affine mul1mx addr0.
rw /integrate_moments affine_mean_exact // affine_covariance_exact //.
rw !mul1mx addr0 trmx1 mulmx1.
by clear; case: distr.
Qed.

End Exactness.

(** The theorem of C6 at the standard Gaussian in two dimensions, for the
    function [x |-> 3 x + (1, 1)]. *)
Lemma sigma_point_moments_exact_on_affine_witness :
  scaling (2 : rat) 2 != 0 /\
  integrate_moments 2 0 twice_identity (affine 3%:M (const_mx 1))
      standard_gaussian_2
    = {| mean := 3%:M *m mean standard_gaussian_2 + const_mx 1;
         covariance := 3%:M *m covariance standard_gaussian_2 *m (3%:M)^T |} /\
  integrate_moments 2 0 twice_identity (fun x => x) standard_gaussian_2
    = standard_gaussian_2.
Proof.
have Hscale : scaling (2 : rat) 2 != 0 by [].
split; first exact: Hscale.
apply: sigma_point_moments_exact_on_affine; first exact: Hscale.
rw /twice_identity /scaling /= tr_scalar_mx -scalar_mxM scalemx1.
by congr (_%:M).
Defined.

End SigmaPointClaims.

(* ===================================================================== *)
(** * More on the loops of the composed process model *)
(* ===================================================================== *)

Module ComposedLoops.

Import CInt Eigen Composed ComposedNotions CIntFacts EigenFacts ComposedFacts.

Section Loops.

Context {Scalar : Type} {M : Type} {SPM : StationaryProcessModel (Scalar := Scalar) M}.

Local Abbreviation Vec := (@Vector Scalar).

Implicit Types (h : @Store M) (m : ComposedStationaryProcessModel)
  (pms : ProcessModelList).

Local Open Scope asserting_scope.

Lemma to_int_add (x y : Z) : to_int (to_int x + to_int y) = to_int (x + y).
Proof.
  unfold to_int, UINT_MODULUS.
  replace ((x + 2 ^ 31) mod 2 ^ 32 - 2 ^ 31 + ((y + 2 ^ 31) mod 2 ^ 32 - 2 ^ 31)
           + 2 ^ 31)
    with ((x + 2 ^ 31) mod 2 ^ 32 + ((y + 2 ^ 31) mod 2 ^ 32 + (- 2 ^ 31)))
    by lia.
  rewrite Zplus_mod_idemp_l.
  rewrite Z.add_assoc, (Z.add_comm (x + 2 ^ 31)), <- Z.add_assoc.
  rewrite Zplus_mod_idemp_l.
  f_equal. f_equal. lia.
Qed.

Lemma sum_sizes_app (size : M -> Z) h pms pms' :
  sum_sizes size h (pms ++ pms') = sum_sizes size h pms + sum_sizes size h pms'.
Proof. induction pms as [|p pms IH]; simpl; [reflexivity | rewrite IH; lia]. Qed.

Lemma sum_sizes_perm (size : M -> Z) h pms pms' :
  Permutation.Permutation pms pms' ->
  sum_sizes size h pms = sum_sizes size h pms'.
Proof. induction 1; simpl; lia. Qed.

Lemma assign_middleRows_inv (v : Vec) (startRow n : Z) (src v' : Vec) :
  assign_middleRows v startRow n src = Some v' ->
  0 <= startRow /\ 0 <= n /\ startRow + n <= rows v /\ rows src = n.
Proof.
  unfold assign_middleRows.
  destruct ((0 <=? startRow) && (0 <=? n) && (startRow + n <=? rows v)
            && (rows src =? n)) eqn:E; [|discriminate].
  intros _.
  apply andb_prop in E as [E E4]. apply andb_prop in E as [E E3].
  apply andb_prop in E as [E1 E2].
  apply Z.leb_le in E1, E2, E3. apply Z.eqb_eq in E4. lia.
Qed.

(** A block read right after a prefix: when the read is in range it is the
    head of what follows the prefix. *)
Lemma middleRows_after_inv (v w : Vec) (n : Z) (b : Vec) :
  middleRows (v ++ w) (rows v) n = Some b ->
  0 <= n <= rows w /\ b = firstn (Z.to_nat n) w.
Proof.
  intros Hb. pose proof (middleRows_rows _ _ _ _ Hb) as (_ & _ & Hn & Hle).
  rewrite rows_app in Hle.
  assert (Hrange : 0 <= n <= rows w) by lia.
  split; [exact Hrange|].
  rewrite (middleRows_after v w n Hrange) in Hb. now injection Hb.
Qed.

Lemma rows_concat_blocks h pms (outs : list Vec) :
  Forall2 (fun p o => rows o = variableSize (h p)) pms outs ->
  rows (concat outs) = sum_sizes variableSize h pms.
Proof.
  induction 1 as [|p o pms outs Ho _ IH]; simpl; [reflexivity|].
  rewrite rows_app. lia.
Qed.

(** What a run of the loop of [mapFromGaussian] that ends tells: the blocks
    it wrote are the components' outputs on their slices, they have the
    declared numbers of rows, the sizes are not negative, and both vectors
    were long enough. *)
Lemma mapFromGaussian_loop_sound h pms :
  forall (done todo used rest_r out : Vec),
  mapFromGaussian_loop h pms (used ++ rest_r) (done ++ todo)
    (rows done) (rows used) = Some out ->
  exists outs,
    component_blocks h pms
      (slices (map (fun p => randomsSize (h p)) pms) rest_r) = Some outs /\
    Forall2 (fun p o => rows o = variableSize (h p)) pms outs /\
    (forall p, In p pms -> 0 <= variableSize (h p) /\ 0 <= randomsSize (h p)) /\
    sum_sizes variableSize h pms <= rows todo /\
    sum_sizes randomsSize h pms <= rows rest_r /\
    out = done ++ concat outs
          ++ skipn (Z.to_nat (sum_sizes variableSize h pms)) todo.
Proof.
  induction pms as [|p pms IH]; intros done todo used rest_r out Hloop;
    simpl in Hloop.
  - injection Hloop as <-. exists []. simpl.
    pose proof (rows_nonneg todo). pose proof (rows_nonneg rest_r).
    repeat split; try constructor; try lia; contradiction.
  - destruct (middleRows (used ++ rest_r) (rows used) (randomsSize (h p)))
      as [r|] eqn:Hr; [|discriminate]. simpl in Hloop.
    apply middleRows_after_inv in Hr as [Hrs ->].
    destruct (mapFromGaussian (h p) (firstn (Z.to_nat (randomsSize (h p))) rest_r))
      as [v|] eqn:Hv; [|discriminate]. simpl in Hloop.
    destruct (assign_middleRows (done ++ todo) (rows done) (variableSize (h p)) v)
      as [vars'|] eqn:Ha; [|discriminate]. simpl in Hloop.
    pose proof (assign_middleRows_inv _ _ _ _ _ Ha) as (_ & Hvs & Hle & Hvrows).
    rewrite rows_app in Hle.
    rewrite assign_middleRows_after in Ha by lia. injection Ha as <-.
    replace (rows done + variableSize (h p)) with (rows (done ++ v)) in Hloop
      by (rewrite rows_app; lia).
    replace (rows used + randomsSize (h p))
      with (rows (used ++ firstn (Z.to_nat (randomsSize (h p))) rest_r)) in Hloop
      by (rewrite rows_app, rows_firstn; lia).
    rewrite <- (firstn_skipn (Z.to_nat (randomsSize (h p))) rest_r) in Hloop at 1.
    rewrite !app_assoc in Hloop.
    rewrite <- (app_assoc used) in Hloop.
    rewrite firstn_skipn in Hloop.
    rewrite <- (firstn_skipn (Z.to_nat (randomsSize (h p))) rest_r) in Hloop at 1.
    rewrite (app_assoc used) in Hloop.
    apply IH in Hloop as (outs & Hblocks & Hrows & Hpos & Hv_le & Hr_le & ->).
    rewrite rows_skipn in Hv_le, Hr_le by lia.
    exists (v :: outs). simpl. rewrite Hv. simpl. rewrite Hblocks. simpl.
    split; [reflexivity|]. split; [constructor; assumption|].
    split; [intros q [<-|Hq]; [lia | now apply Hpos]|].
    split; [lia|]. split; [lia|].
    rewrite skipn_skipn.
    assert (0 <= sum_sizes variableSize h pms)
      by (apply sum_sizes_nonneg; intros q Hq; apply (Hpos q Hq)).
    replace (Z.to_nat (sum_sizes variableSize h pms)
             + Z.to_nat (variableSize (h p)))%nat
      with (Z.to_nat (variableSize (h p) + sum_sizes variableSize h pms))
      by lia.
    rewrite <- !app_assoc. reflexivity.
Qed.

(** The converse: blocks of the declared numbers of rows are written one
    after the other, whatever the vector they are written over holds. *)
Lemma mapFromGaussian_loop_complete h pms :
  forall (outs : list Vec) (done todo used rest_r : Vec),
  component_blocks h pms
    (slices (map (fun p => randomsSize (h p)) pms) rest_r) = Some outs ->
  Forall2 (fun p o => rows o = variableSize (h p)) pms outs ->
  (forall p, In p pms -> 0 <= variableSize (h p) /\ 0 <= randomsSize (h p)) ->
  sum_sizes variableSize h pms <= rows todo ->
  sum_sizes randomsSize h pms <= rows rest_r ->
  mapFromGaussian_loop h pms (used ++ rest_r) (done ++ todo)
    (rows done) (rows used)
  = Some (done ++ concat outs
          ++ skipn (Z.to_nat (sum_sizes variableSize h pms)) todo).
Proof.
  induction pms as [|p pms IH];
    intros outs done todo used rest_r Hblocks Hrows Hpos Hv_le Hr_le.
  - simpl in *. injection Hblocks as <-. reflexivity.
  - simpl in Hblocks, Hv_le, Hr_le.
    destruct (mapFromGaussian (h p) (firstn (Z.to_nat (randomsSize (h p))) rest_r))
      as [v|] eqn:Hv; [|discriminate]. simpl in Hblocks.
    destruct (component_blocks h pms
                (slices (map (fun p0 => randomsSize (h p0)) pms)
                   (skipn (Z.to_nat (randomsSize (h p))) rest_r)))
      as [outs'|] eqn:Hblocks'; [|discriminate]. simpl in Hblocks.
    injection Hblocks as <-.
    inversion Hrows as [|p0 o0 pms0 outs0 Hv_rows Hrows']; subst.
    destruct (Hpos p (or_introl eq_refl)) as [Hvs Hrs].
    assert (Hpos' : forall q, In q pms ->
               0 <= variableSize (h q) /\ 0 <= randomsSize (h q))
      by (intros q Hq; apply Hpos; now right).
    assert (0 <= sum_sizes variableSize h pms)
      by (apply sum_sizes_nonneg; intros q Hq; apply (Hpos' q Hq)).
    assert (0 <= sum_sizes randomsSize h pms)
      by (apply sum_sizes_nonneg; intros q Hq; apply (Hpos' q Hq)).
    simpl. rewrite middleRows_after by lia. simpl. rewrite Hv. simpl.
    rewrite assign_middleRows_after by lia. simpl.
    pose proof (IH outs' (done ++ v)
                  (skipn (Z.to_nat (variableSize (h p))) todo)
                  (used ++ firstn (Z.to_nat (randomsSize (h p))) rest_r)
                  (skipn (Z.to_nat (randomsSize (h p))) rest_r)
                  Hblocks' Hrows' Hpos') as Hloop.
    rewrite !rows_skipn in Hloop by lia.
    specialize (Hloop ltac:(lia) ltac:(lia)).
    rewrite <- (app_assoc used), firstn_skipn in Hloop.
    rewrite !rows_app, rows_firstn, Hv_rows in Hloop by lia.
    rewrite <- (app_assoc done v) in Hloop.
    rewrite Hloop, skipn_skipn.
    replace (Z.to_nat (sum_sizes variableSize h pms)
             + Z.to_nat (variableSize (h p)))%nat
      with (Z.to_nat (variableSize (h p) + sum_sizes variableSize h pms))
      by lia.
    rewrite <- !app_assoc. reflexivity.
Qed.

(** The loop over a list that is two lists one after the other. *)
Lemma mapFromGaussian_loop_app h pms pms' (randoms variables : Vec)
    (variable_index random_index : Z) :
  mapFromGaussian_loop h (pms ++ pms') randoms variables
    variable_index random_index
  = (variables' <- mapFromGaussian_loop h pms randoms variables
                     variable_index random_index ;;
     mapFromGaussian_loop h pms' randoms variables'
       (variable_index + sum_sizes variableSize h pms)
       (random_index + sum_sizes randomsSize h pms)).
Proof.
  revert variables variable_index random_index.
  induction pms as [|p pms IH]; intros variables vi ri; simpl.
  - now rewrite !Z.add_0_r.
  - destruct (middleRows randoms ri (randomsSize (h p))) as [r|]; [|reflexivity].
    simpl. destruct (mapFromGaussian (h p) r) as [v|]; [|reflexivity]. simpl.
    destruct (assign_middleRows variables vi (variableSize (h p)) v)
      as [vars'|]; [|reflexivity]. simpl.
    rewrite IH, !Z.add_assoc. reflexivity.
Qed.

End Loops.

End ComposedLoops.

(* ===================================================================== *)
(** * Further properties of the composed process model *)
(* ===================================================================== *)

Module ComposedExtras.

Import CInt Eigen Composed ComposedNotions CIntFacts EigenFacts ComposedFacts
  ComposedLoops.

Section OnComponents.

Context {Scalar : Type} {M : Type} {SPM : StationaryProcessModel (Scalar := Scalar) M}.

Local Abbreviation Vec := (@Vector Scalar).

Implicit Types (h : @Store M) (m : ComposedStationaryProcessModel)
  (pms : ProcessModelList).

Local Open Scope asserting_scope.

(** What a result of [mapFromGaussian] tells. *)
Lemma composed_mapFromGaussian_inv (fill : Scalar) h m (randoms out : Vec) :
  composed_mapFromGaussian fill h m randoms = Some out ->
  exists outs,
    component_blocks h (process_models_ m)
      (component_slices h (process_models_ m) randoms) = Some outs /\
    Forall2 (fun p o => rows o = variableSize (h p)) (process_models_ m) outs /\
    (forall p, In p (process_models_ m) ->
       0 <= variableSize (h p) /\ 0 <= randomsSize (h p)) /\
    sum_sizes variableSize h (process_models_ m) <= INT_MAX /\
    composed_variableSize h m = sum_sizes variableSize h (process_models_ m) /\
    sum_sizes randomsSize h (process_models_ m) <= rows randoms /\
    out = concat outs.
Proof.
  unfold composed_mapFromGaussian, Vector_ctor.
  destruct (0 <=? composed_variableSize h m) eqn:Hn; [|discriminate].
  apply Z.leb_le in Hn. simpl. intros Hloop.
  apply (mapFromGaussian_loop_sound h (process_models_ m) [] _ [] randoms)
    in Hloop as (outs & Hblocks & Hrows & Hpos & Hv_le & Hr_le & ->).
  unfold rows in Hv_le at 1. rewrite repeat_length in Hv_le.
  assert (0 <= sum_sizes variableSize h (process_models_ m))
    by (apply sum_sizes_nonneg; intros q Hq; apply (Hpos q Hq)).
  pose proof (to_int_range (sum_sizes variableSize h (process_models_ m)))
    as [_ Hmax].
  rewrite <- composed_variableSize_wraps in Hmax.
  assert (Hfit : sum_sizes variableSize h (process_models_ m) <= INT_MAX) by lia.
  assert (Hexact : composed_variableSize h m
                   = sum_sizes variableSize h (process_models_ m)).
  { rewrite composed_variableSize_wraps. apply to_int_small.
    unfold INT_MIN. lia. }
  exists outs. repeat split; try assumption; try (now apply Hpos).
  simpl. rewrite Hexact, skipn_all2, app_nil_r; [reflexivity|].
  rewrite repeat_length. lia.
Qed.

(** The converse. *)
Lemma composed_mapFromGaussian_intro (fill : Scalar) h m (randoms : Vec)
    (outs : list Vec) :
  component_blocks h (process_models_ m)
    (component_slices h (process_models_ m) randoms) = Some outs ->
  Forall2 (fun p o => rows o = variableSize (h p)) (process_models_ m) outs ->
  (forall p, In p (process_models_ m) ->
     0 <= variableSize (h p) /\ 0 <= randomsSize (h p)) ->
  sum_sizes variableSize h (process_models_ m) <= INT_MAX ->
  sum_sizes randomsSize h (process_models_ m) <= rows randoms ->
  composed_mapFromGaussian fill h m randoms = Some (concat outs).
Proof.
  intros Hblocks Hrows Hpos Hfit Hr_le.
  assert (H0 : 0 <= sum_sizes variableSize h (process_models_ m))
    by (apply sum_sizes_nonneg; intros q Hq; apply (Hpos q Hq)).
  assert (Hexact : composed_variableSize h m
                   = sum_sizes variableSize h (process_models_ m)).
  { rewrite composed_variableSize_wraps. apply to_int_small.
    unfold INT_MIN. lia. }
  unfold composed_mapFromGaussian, Vector_ctor. rewrite Hexact.
  replace (0 <=? sum_sizes variableSize h (process_models_ m)) with true
    by (symmetry; apply Z.leb_le; lia).
  simpl.
  pose proof (mapFromGaussian_loop_complete h (process_models_ m) outs []
                (repeat fill (Z.to_nat (sum_sizes variableSize h (process_models_ m))))
                [] randoms Hblocks Hrows Hpos) as Hloop.
  assert (Hlen : rows (repeat fill
                         (Z.to_nat (sum_sizes variableSize h (process_models_ m))))
                 = sum_sizes variableSize h (process_models_ m))
    by (unfold rows; rewrite repeat_length; lia).
  specialize (Hloop ltac:(lia) Hr_le).
  rewrite skipn_all2, app_nil_r in Hloop by (rewrite repeat_length; lia).
  exact Hloop.
Qed.

(** X1. Whenever [mapFromGaussian] of a composed model returns a vector,
    with no assumption on the components, that vector is the concatenation
    of the components' outputs on their consecutive slices of the noise; it
    has [variableSize()] rows, which then is the sum of the components'
    sizes; and the noise vector had at least the rows the slices need. *)
Theorem composed_mapFromGaussian_returns_the_stack (fill : Scalar) h m
    (randoms out : Vec) :
  composed_mapFromGaussian fill h m randoms = Some out ->
  stacked_mapFromGaussian h m randoms = Some out /\
  rows out = composed_variableSize h m /\
  composed_variableSize h m = sum_sizes variableSize h (process_models_ m) /\
  sum_sizes randomsSize h (process_models_ m) <= rows randoms.
Proof.
  intros Hout.
  apply composed_mapFromGaussian_inv in Hout
    as (outs & Hblocks & Hrows & _ & _ & Hexact & Hr_le & ->).
  unfold stacked_mapFromGaussian. rewrite Hblocks. simpl.
  rewrite (rows_concat_blocks h _ outs Hrows), Hexact. repeat split. exact Hr_le.
Qed.

(** X2. The vector that [mapFromGaussian] allocates is left uninitialised
    by its constructor; a returned result holds none of that content: every
    row has been written by a component, so the result is the same whatever
    the allocation held. *)
Theorem composed_mapFromGaussian_overwrites_every_row (fill fill' : Scalar)
    h m (randoms out : Vec) :
  composed_mapFromGaussian fill h m randoms = Some out ->
  composed_mapFromGaussian fill' h m randoms = Some out.
Proof.
  intros Hout.
  apply composed_mapFromGaussian_inv in Hout
    as (outs & Hblocks & Hrows & Hpos & Hfit & _ & Hr_le & ->).
  now apply composed_mapFromGaussian_intro.
Qed.

(** X3. For components that keep the contract of the interface, the exact
    condition under which [mapFromGaussian] of the composed model returns:
    the components' variable sizes add up to at most [INT_MAX], and the
    noise vector has at least as many rows as the components' noise sizes
    add up to. *)
Theorem composed_mapFromGaussian_returns_iff (fill : Scalar) h m (randoms : Vec) :
  (forall p, In p (process_models_ m) -> conforming (h p)) ->
  (exists out, composed_mapFromGaussian fill h m randoms = Some out) <->
  sum_sizes variableSize h (process_models_ m) <= INT_MAX /\
  sum_sizes randomsSize h (process_models_ m) <= rows randoms.
Proof.
  intros Hconf. split.
  - intros [out Hout].
    apply composed_mapFromGaussian_inv in Hout
      as (outs & _ & _ & _ & Hfit & _ & Hr_le & _).
    split; assumption.
  - intros [Hfit Hr_le].
    assert (H0 : 0 <= sum_sizes variableSize h (process_models_ m))
      by (apply sum_sizes_nonneg; intros q Hq; apply (Hconf q Hq)).
    assert (Hexact : composed_variableSize h m
                     = sum_sizes variableSize h (process_models_ m)).
    { rewrite composed_variableSize_wraps. apply to_int_small.
      unfold INT_MIN. lia. }
    destruct (mapFromGaussian_loop_blocks h (process_models_ m) Hconf []
                (repeat fill (Z.to_nat (composed_variableSize h m))) [] randoms)
      as (outs & _ & _ & Hloop).
    { unfold rows. rewrite repeat_length. lia. }
    { exact Hr_le. }
    exists (concat outs). unfold composed_mapFromGaussian, Vector_ctor.
    replace (0 <=? composed_variableSize h m) with true
      by (symmetry; apply Z.leb_le; lia).
    exact Hloop.
Qed.

(** X4. Composition: when one list of components maps a noise vector of
    exactly its declared rows and a second list maps another noise vector,
    the two lists put one after the other map the two noise vectors put one
    after the other to the two results put one after the other, as long as
    the variable sizes together stay within [INT_MAX]. *)
Theorem composed_mapFromGaussian_app (fill : Scalar) h pms pms'
    (randoms randoms' out out' : Vec) :
  composed_mapFromGaussian fill h {| process_models_ := pms |} randoms
    = Some out ->
  composed_mapFromGaussian fill h {| process_models_ := pms' |} randoms'
    = Some out' ->
  rows randoms = sum_sizes randomsSize h pms ->
  sum_sizes variableSize h pms + sum_sizes variableSize h pms' <= INT_MAX ->
  composed_mapFromGaussian fill h {| process_models_ := pms ++ pms' |}
    (randoms ++ randoms') = Some (out ++ out').
Proof.
  intros Hout Hout' Hrandoms Hfit.
  apply composed_mapFromGaussian_inv in Hout
    as (outs & Hblocks & Hrows & Hpos & _ & _ & Hr_le & ->).
  apply composed_mapFromGaussian_inv in Hout'
    as (outs' & Hblocks' & Hrows' & Hpos' & _ & _ & Hr_le' & ->).
  simpl in *.
  pose proof (rows_concat_blocks h _ outs Hrows) as Hc.
  assert (H0 : 0 <= sum_sizes variableSize h pms)
    by (apply sum_sizes_nonneg; intros q Hq; apply (Hpos q Hq)).
  assert (H0' : 0 <= sum_sizes variableSize h pms')
    by (apply sum_sizes_nonneg; intros q Hq; apply (Hpos' q Hq)).
  assert (Hexact : composed_variableSize h {| process_models_ := pms ++ pms' |}
                   = sum_sizes variableSize h pms + sum_sizes variableSize h pms').
  { rewrite composed_variableSize_wraps. simpl. rewrite sum_sizes_app.
    apply to_int_small. unfold INT_MIN. lia. }
  unfold composed_mapFromGaussian, Vector_ctor. rewrite Hexact. simpl.
  replace (0 <=? sum_sizes variableSize h pms + sum_sizes variableSize h pms')
    with true by (symmetry; apply Z.leb_le; lia).
  simpl. rewrite mapFromGaussian_loop_app.
  set (todo := repeat fill
                 (Z.to_nat (sum_sizes variableSize h pms
                            + sum_sizes variableSize h pms'))).
  assert (Htodo : rows todo
                  = sum_sizes variableSize h pms + sum_sizes variableSize h pms')
    by (unfold todo, rows; rewrite repeat_length; lia).
  pose proof (mapFromGaussian_loop_complete h pms outs [] todo [] randoms
                Hblocks Hrows Hpos ltac:(lia) Hr_le) as Hfirst.
  simpl in Hfirst.
  rewrite (mapFromGaussian_loop_surplus h pms randoms randoms' todo _ 0 0 Hfirst).
  simpl.
  pose proof (mapFromGaussian_loop_complete h pms' outs' (concat outs)
                (skipn (Z.to_nat (sum_sizes variableSize h pms)) todo)
                randoms randoms' Hblocks' Hrows' Hpos') as Hsecond.
  rewrite rows_skipn in Hsecond by lia.
  specialize (Hsecond ltac:(lia) Hr_le').
  rewrite Hc, Hrandoms in Hsecond. rewrite Hsecond.
  rewrite skipn_all2, app_nil_r; [reflexivity|].
  rewrite length_skipn. unfold todo. rewrite repeat_length. lia.
Qed.

(** X5. The sizes of two lists of components put one after the other are
    the sizes of the two lists added in 32-bit arithmetic. *)
Theorem composed_sizes_app h pms pms' :
  composed_variableSize h {| process_models_ := pms ++ pms' |}
    = to_int (composed_variableSize h {| process_models_ := pms |}
              + composed_variableSize h {| process_models_ := pms' |}) /\
  composed_randomsSize h {| process_models_ := pms ++ pms' |}
    = to_int (composed_randomsSize h {| process_models_ := pms |}
              + composed_randomsSize h {| process_models_ := pms' |}) /\
  composed_controlSize h {| process_models_ := pms ++ pms' |}
    = to_int (composed_controlSize h {| process_models_ := pms |}
              + composed_controlSize h {| process_models_ := pms' |}).
Proof.
  rewrite !composed_variableSize_wraps, !composed_randomsSize_wraps,
    !composed_controlSize_wraps.
  simpl. rewrite !sum_sizes_app, !to_int_add. repeat split.
Qed.

(** X6. The sizes of a composed model do not depend on the order in which
    its components are listed, wrap-around included. *)
Theorem composed_sizes_permutation h pms pms' :
  Permutation.Permutation pms pms' ->
  composed_variableSize h {| process_models_ := pms |}
    = composed_variableSize h {| process_models_ := pms' |} /\
  composed_randomsSize h {| process_models_ := pms |}
    = composed_randomsSize h {| process_models_ := pms' |} /\
  composed_controlSize h {| process_models_ := pms |}
    = composed_controlSize h {| process_models_ := pms' |}.
Proof.
  intros Hperm.
  rewrite !composed_variableSize_wraps, !composed_randomsSize_wraps,
    !composed_controlSize_wraps. simpl.
  rewrite (sum_sizes_perm variableSize h _ _ Hperm),
    (sum_sizes_perm randomsSize h _ _ Hperm),
    (sum_sizes_perm controlSize h _ _ Hperm).
  repeat split.
Qed.

End OnComponents.

End ComposedExtras.

(* ===================================================================== *)
(** * Conditioning the components of a composed model *)
(* ===================================================================== *)

Module ComposedConditioning.

Import CInt Eigen Composed ComposedNotions CIntFacts EigenFacts ComposedFacts
  ComposedLoops.

Section OnComponents.

Context {Scalar : Type} {M : Type} {SPM : StationaryProcessModel (Scalar := Scalar) M}.

Local Abbreviation Vec := (@Vector Scalar).

Implicit Types (h : @Store M) (m : ComposedStationaryProcessModel)
  (pms : ProcessModelList).

Local Open Scope asserting_scope.




Lemma same_sizes_refl h : same_sizes h h.
Proof. intros q. repeat split. Qed.

Lemma same_sizes_trans h1 h2 h3 :
  same_sizes h1 h2 -> same_sizes h2 h3 -> same_sizes h1 h3.
Proof.
  intros H12 H23 q. destruct (H12 q) as (? & ? & ?), (H23 q) as (? & ? & ?).
  repeat split; congruence.
Qed.

Lemma same_sizes_store_set h (p : ptr) (o : M) (delta_time : Scalar)
    (state control : Vec) :
  keeps_sizes -> conditionals (h p) delta_time state control = Some o ->
  same_sizes h (store_set h p o).
Proof.
  intros Hkeep Ho q. unfold store_set.
  destruct (Nat.eqb q p) eqn:E; [|repeat split].
  apply Nat.eqb_eq in E. subst q. exact (Hkeep _ _ _ _ _ Ho).
Qed.

(** With components whose conditioning keeps their sizes, the loop keeps
    the sizes of every object of the store. *)
Lemma conditionals_loop_sizes pms : keeps_sizes ->
  forall h (delta_time : Scalar) (state control : Vec)
    (state_index control_index : Z) (h' : @Store M),
  conditionals_loop h pms delta_time state control state_index control_index
    = Some h' ->
  same_sizes h h'.
Proof.
  intros Hkeep.
  induction pms as [|p pms IH]; intros h dt state control si ci h' Hloop;
    simpl in Hloop.
  - injection Hloop as <-. apply same_sizes_refl.
  - destruct (middleRows state si (variableSize (h p))) as [s|]; [|discriminate].
    simpl in Hloop.
    destruct (middleRows control ci (controlSize (h p))) as [c|]; [|discriminate].
    simpl in Hloop.
    destruct (conditionals (h p) dt s c) as [o|] eqn:Ho; [|discriminate].
    simpl in Hloop.
    eapply same_sizes_trans; [|exact (IH _ _ _ _ _ _ _ Hloop)].
    exact (same_sizes_store_set h p o dt s c Hkeep Ho).
Qed.

Lemma sum_sizes_same_sizes h h' pms :
  same_sizes h h' ->
  sum_sizes variableSize h' pms = sum_sizes variableSize h pms /\
  sum_sizes randomsSize h' pms = sum_sizes randomsSize h pms /\
  sum_sizes controlSize h' pms = sum_sizes controlSize h pms.
Proof.
  intros Hsame. induction pms as [|p pms (IHv & IHr & IHc)]; simpl.
  - repeat split.
  - destruct (Hsame p) as (Hv & Hr & Hc). rewrite IHv, IHr, IHc, Hv, Hr, Hc.
    repeat split.
Qed.



(** A state or a control too short for the slices stops the loop. *)
Lemma conditionals_loop_short pms : keeps_sizes ->
  forall h (delta_time : Scalar) (state control : Vec)
    (state_index control_index : Z),
  (forall p, In p pms -> 0 <= variableSize (h p) /\ 0 <= controlSize (h p)) ->
  state_index <= rows state -> control_index <= rows control ->
  rows state < state_index + sum_sizes variableSize h pms \/
  rows control < control_index + sum_sizes controlSize h pms ->
  conditionals_loop h pms delta_time state control state_index control_index
    = None.
Proof.
  intros Hkeep.
  induction pms as [|p pms IH]; intros h dt state control si ci Hpos Hsi Hci Hshort;
    simpl in *.
  - lia.
  - destruct (middleRows state si (variableSize (h p))) as [s|] eqn:Hs;
      [|reflexivity]. simpl.
    destruct (middleRows control ci (controlSize (h p))) as [c|] eqn:Hc;
      [|reflexivity]. simpl.
    destruct (conditionals (h p) dt s c) as [o|] eqn:Ho; [|reflexivity]. simpl.
    apply middleRows_rows in Hs as (_ & _ & _ & Hs_in).
    apply middleRows_rows in Hc as (_ & _ & _ & Hc_in).
    pose proof (same_sizes_store_set h p o dt s c Hkeep Ho) as Hsame.
    destruct (sum_sizes_same_sizes _ _ pms Hsame) as (Ev & _ & Ec).
    destruct (Hsame p) as (Evp & _ & Ecp).
    apply IH.
    + intros q Hq. destruct (Hsame q) as (Evq & _ & Ecq).
      rewrite Evq, Ecq. apply Hpos. now right.
    + lia.
    + lia.
    + rewrite Ev, Ec, Evp, Ecp. lia.
Qed.



(** X9. When conditioning keeps the sizes of the components,
    [conditionals] of a composed model keeps [variableSize()],
    [randomsSize()] and [controlSize()] of every composed model over the
    store, the conditioned one included. *)
Theorem composed_conditionals_keeps_sizes h m m' (delta_time : Scalar)
    (state control : Vec) (h' : @Store M) :
  keeps_sizes ->
  composed_conditionals h m delta_time state control = Some h' ->
  composed_variableSize h' m' = composed_variableSize h m' /\
  composed_randomsSize h' m' = composed_randomsSize h m' /\
  composed_controlSize h' m' = composed_controlSize h m'.
Proof.
  intros Hkeep Hloop.
  pose proof (conditionals_loop_sizes _ Hkeep _ _ _ _ _ _ _ Hloop) as Hsame.
  destruct (sum_sizes_same_sizes _ _ (process_models_ m') Hsame)
    as (Ev & Er & Ec).
  rewrite !composed_variableSize_wraps, !composed_randomsSize_wraps,
    !composed_controlSize_wraps, Ev, Er, Ec.
  repeat split.
Qed.

(** X10. When conditioning keeps the sizes of the components and no size
    is negative, a state with fewer rows than the components' variable
    sizes add up to, or a control with fewer rows than their control sizes
    add up to, stops [conditionals]: a slice runs past the end of the
    vector. *)
Theorem composed_conditionals_short h m (delta_time : Scalar)
    (state control : Vec) :
  keeps_sizes ->
  (forall p, In p (process_models_ m) ->
     0 <= variableSize (h p) /\ 0 <= controlSize (h p)) ->
  rows state < sum_sizes variableSize h (process_models_ m) \/
  rows control < sum_sizes controlSize h (process_models_ m) ->
  composed_conditionals h m delta_time state control = None.
Proof.
  intros Hkeep Hpos Hshort. unfold composed_conditionals.
  apply conditionals_loop_short; try assumption.
  - apply rows_nonneg.
  - apply rows_nonneg.
Qed.

End OnComponents.

End ComposedConditioning.

(* ===================================================================== *)
(** * Histories of the robust filter *)
(* ===================================================================== *)

Module RobustHistories.

Import Robust RobustNotions RobustClaims.

Section OnFilter.

Context {T : Traits}.
Context {StateTransitionFunction ObservationFunction Quadrature : Type}.
Context {OF : ObservationFunctionInterface ObservationFunction}.
Context {C : @Collaborators T StateTransitionFunction ObservationFunction Quadrature}.

Local Abbreviation Filter :=
  (@RobustGaussianFilter T StateTransitionFunction ObservationFunction Quadrature).

Implicit Types (t : Filter).

Lemma after_app (steps steps' : list Step) t :
  after (steps ++ steps') t = after steps' (after steps t).
Proof.
  revert t. induction steps as [|s steps IH]; intros t; simpl; [reflexivity|].
  apply IH.
Qed.

Lemma after_predicts (steps : list Step) t :
  Forall is_predict_step steps -> after steps t = t.
Proof.
  induction 1 as [|s steps Hs _ IH]; simpl; [reflexivity|].
  destruct s as [prior input | predicted obsrv]; [|contradiction].
  unfold enter, step. rewrite predict_run. exact IH.
Qed.

(** The object an [update] leaves: the one it found, with the feature model
    calibrated for the predicted belief. *)
Lemma update_object t (predicted_belief : Belief) (obsrv : Obsrv) :
  this (snd (update predicted_belief obsrv (enter t)))
  = {| gaussian_filter_ :=
         {| process_model_ := process_model t;
            obsrv_model_ := calibrated_model t predicted_belief;
            quadrature_ := quadrature_ (gaussian_filter_ t) |} |}.
Proof. unfold enter. now rewrite update_run. Qed.

(** X11. What a history of [predict] and [update] calls leaves in the
    filter object: [predict] never changes it, and after any history the
    object is the original one with its feature model calibrated by the
    last [update] alone, for the predicted belief of that call. Earlier
    calls and the observations leave no trace. *)
Theorem history_leaves_last_calibration t :
  (forall predicts : list Step,
     Forall is_predict_step predicts -> after predicts t = t) /\
  (forall (steps predicts : list Step) (predicted_belief : Belief)
          (obsrv : Obsrv),
     Forall is_predict_step predicts ->
     after (steps ++ do_update predicted_belief obsrv :: predicts) t
     = {| gaussian_filter_ :=
            {| process_model_ := process_model t;
               obsrv_model_ := calibrated_model t predicted_belief;
               quadrature_ := quadrature_ (gaussian_filter_ t) |} |}).
Proof.
  split; [intros predicts; apply after_predicts|].
  intros steps predicts predicted obsrv Hpredicts.
  rewrite after_app. cbn [after step]. rewrite (after_predicts _ _ Hpredicts).
  rewrite update_object.
  pose proof (after_keeps_parameters steps t) as Hsame.
  rewrite <- (same_parameters_calibrated predicted _ _ Hsame).
  destruct Hsame as (Hp & _ & Hq). now rewrite <- Hp, <- Hq.
Qed.

(** X12. Every call is self-contained: the belief that [predict] or
    [update] returns after any history of earlier calls is the belief it
    returns on the filter before that history. *)
Theorem results_do_not_depend_on_history t (steps : list Step) (s : Step) :
  fst (step s (enter (after steps t))) = fst (step s (enter t)).
Proof.
  pose proof (after_keeps_parameters steps t) as Hsame.
  destruct s as [prior input | predicted obsrv]; unfold enter, step.
  - rewrite !predict_run. cbn [fst].
    destruct Hsame as (Hp & _ & Hq). unfold process_model in Hp.
    unfold BaseGaussianFilter_predict. now rewrite <- Hp, <- Hq.
  - rewrite !update_run. cbn [fst].
    rewrite <- (same_parameters_calibrated predicted _ _ Hsame).
    destruct Hsame as (Hp & _ & Hq). now rewrite <- Hp, <- Hq.
Qed.

End OnFilter.

End RobustHistories.

(* ===================================================================== *)
(** * The further properties on the concrete models *)
(* ===================================================================== *)

Module ExtrasExamples.

Import CInt Eigen Composed ComposedNotions ComposedDemo ConditionedDemo
  EigenFacts ComposedExamples ComposedExtras ComposedConditioning.
Import Robust RobustNotions RobustDemo RobustHistories.

Lemma GainModel_keeps_sizes : @keeps_sizes Z GainModel GainModel_model.
Proof.
  intros o o' dt state control Ho. simpl in Ho. injection Ho as <-.
  repeat split.
Qed.

(** X1 on the two-component model. *)
Lemma composed_mapFromGaussian_returns_the_stack_witness :
  stacked_mapFromGaussian small_store small_model [1; 2; 3]
    = Some [10; 20; 300] /\
  rows [10; 20; 300] = composed_variableSize small_store small_model /\
  composed_variableSize small_store small_model
    = sum_sizes variableSize small_store (process_models_ small_model) /\
  sum_sizes randomsSize small_store (process_models_ small_model)
    <= rows [1; 2; 3].
Proof.
  exact (composed_mapFromGaussian_returns_the_stack 0 small_store small_model
           [1; 2; 3] [10; 20; 300] eq_refl).
Defined.

(** X2 on the two-component model: allocated with zeros or with sevens,
    the result is the same. *)
Lemma composed_mapFromGaussian_overwrites_every_row_witness :
  composed_mapFromGaussian 7 small_store small_model [1; 2; 3]
    = Some [10; 20; 300].
Proof.
  exact (composed_mapFromGaussian_overwrites_every_row 0 7 small_store
           small_model [1; 2; 3] [10; 20; 300] eq_refl).
Defined.

(** X3 on the two-component model: three variable rows fit, and four noise
    rows are enough. *)
Lemma composed_mapFromGaussian_returns_iff_witness :
  exists out,
    composed_mapFromGaussian 0 small_store small_model [1; 2; 3; 4] = Some out.
Proof.
  apply (proj2 (composed_mapFromGaussian_returns_iff 0 small_store small_model
                  [1; 2; 3; 4]
                  (fun p _ => small_store_conforming p))).
  split; vm_compute; discriminate.
Defined.

(** X4: the two components of the small model, first each alone, then one
    after the other. *)
Lemma composed_mapFromGaussian_app_witness :
  composed_mapFromGaussian 0 small_store
    {| process_models_ := [0%nat] ++ [1%nat] |} ([1; 2] ++ [3])
  = Some ([10; 20] ++ [300]).
Proof.
  apply (composed_mapFromGaussian_app 0 small_store [0%nat] [1%nat]
           [1; 2] [3] [10; 20] [300]).
  - reflexivity.
  - reflexivity.
  - reflexivity.
  - vm_compute. discriminate.
Defined.

(** X6: the two components of the small model in either order. *)
Lemma composed_sizes_permutation_witness :
  composed_variableSize small_store {| process_models_ := [0%nat; 1%nat] |}
    = composed_variableSize small_store {| process_models_ := [1%nat; 0%nat] |} /\
  composed_randomsSize small_store {| process_models_ := [0%nat; 1%nat] |}
    = composed_randomsSize small_store {| process_models_ := [1%nat; 0%nat] |} /\
  composed_controlSize small_store {| process_models_ := [0%nat; 1%nat] |}
    = composed_controlSize small_store {| process_models_ := [1%nat; 0%nat] |}.
Proof.
  apply composed_sizes_permutation. apply Permutation.perm_swap.
Defined.

Lemma small_model_conditioned :
  composed_conditionals small_store small_model 2 [1; 2; 3] [5; 6]
  = Some conditioned_small_store.
Proof. reflexivity. Qed.



(** X9 on the small model. *)
Lemma composed_conditionals_keeps_sizes_witness :
  composed_variableSize conditioned_small_store small_model
    = composed_variableSize small_store small_model /\
  composed_randomsSize conditioned_small_store small_model
    = composed_randomsSize small_store small_model /\
  composed_controlSize conditioned_small_store small_model
    = composed_controlSize small_store small_model.
Proof.
  exact (composed_conditionals_keeps_sizes small_store small_model small_model
           2 [1; 2; 3] [5; 6] conditioned_small_store GainModel_keeps_sizes
           small_model_conditioned).
Defined.

(** X10 on the small model: two state rows where three are declared. *)
Lemma composed_conditionals_short_witness :
  composed_conditionals small_store small_model 2 [1; 2] [5; 6] = None.
Proof.
  apply (composed_conditionals_short small_store small_model 2 [1; 2] [5; 6]
           GainModel_keeps_sizes).
  - intros [|p] _; simpl; lia.
  - left. vm_compute. reflexivity.
Defined.

(** X11 on the scalar filter: after an update on one belief, an update on
    another and a prediction, the calibration is that of the second
    update. *)
Lemma history_leaves_last_calibration_witness :
  after ([do_update belief_8 99] ++ do_update belief_5 17 :: [do_predict belief_5 1])
    scalar_filter
  = {| gaussian_filter_ :=
         {| process_model_ := process_model scalar_filter;
            obsrv_model_ := calibrated_model scalar_filter belief_5;
            quadrature_ := quadrature_ (gaussian_filter_ scalar_filter) |} |}.
Proof.
  apply (proj2 (history_leaves_last_calibration scalar_filter)).
  repeat constructor.
Defined.

End ExtrasExamples.
